(** * Proof-of-work difficulty selection and verification (src/pow.cpp)

    A shallow embedding of [GetNextWorkRequired], [CalculateNextWorkRequired]
    and [CheckProofOfWork], together with the 256-bit arithmetic and the
    compact-target codec they rely on, followed by the properties the
    specification states about them. *)

From Stdlib Require Import ZArith Bool List Lia.
Import ListNotations.

Local Open Scope Z_scope.

Set Warnings "-register-all".

(** ** Outcomes of a call

    The C++ functions either return a value, trip an [assert], or divide by
    zero (integer [%] and [/], and [arith_uint256::operator/=], which throws). *)

Inductive result (A : Type) : Type :=
| Ok (a : A)
| AssertionFailed
| DivisionByZero.

Arguments Ok {A} a.
Arguments AssertionFailed {A}.
Arguments DivisionByZero {A}.

Definition bind {A B : Type} (r : result A) (k : A -> result B) : result B :=
  match r with
  | Ok a => k a
  | AssertionFailed => AssertionFailed
  | DivisionByZero => DivisionByZero
  end.

Notation "'do' x <- r ; k" := (bind r (fun x => k))
  (at level 10, x name, r at level 100, k at level 200).

(** ** Machine integers

    Fixed-width integers are carried as [Z]; every operation writes its
    wrap-around out. *)

Module MachineInt.

Definition to_uint32 (x : Z) : Z := x mod 2 ^ 32.
Definition to_uint64 (x : Z) : Z := x mod 2 ^ 64.
Definition to_int32 (x : Z) : Z := (x + 2 ^ 31) mod 2 ^ 32 - 2 ^ 31.
Definition to_int64 (x : Z) : Z := (x + 2 ^ 63) mod 2 ^ 64 - 2 ^ 63.

Definition is_uint32 (x : Z) : Prop := 0 <= x < 2 ^ 32.
Definition is_int32 (x : Z) : Prop := - 2 ^ 31 <= x < 2 ^ 31.
Definition is_int64 (x : Z) : Prop := - 2 ^ 63 <= x < 2 ^ 63.

(** [a / b] on [int64_t]: truncating, undefined for a zero divisor. *)
Definition int64_div (a b : Z) : result Z :=
  if b =? 0 then DivisionByZero else Ok (to_int64 (Z.quot a b)).

(** [a % b] on [int64_t]: sign of the dividend, undefined for a zero divisor. *)
Definition int64_rem (a b : Z) : result Z :=
  if b =? 0 then DivisionByZero else Ok (to_int64 (Z.rem a b)).

End MachineInt.
Import MachineInt.

(** ** 256-bit unsigned arithmetic ([arith_uint256]) *)

Module Arith256.

Definition arith_uint256 : Type := Z.

Definition modulus : Z := 2 ^ 256.

Definition in_range (a : arith_uint256) : Prop := 0 <= a < modulus.

Definition wrap (x : Z) : arith_uint256 := x mod modulus.

(** Modelled from the spec: [arith_uint256::bits()] (arith_uint256.h is not
    part of the sources at hand), the "bit length" of a magnitude: the
    position of the highest set bit plus one, and zero for zero.  The C++
    return type is [unsigned int]. *)
Definition bits (a : arith_uint256) : Z :=
  if a =? 0 then 0 else Z.log2 a + 1.

(** Modelled from the spec: the shifts [>>=] and [<<=] of the 256-bit type;
    bits shifted out at the top are lost. *)
Definition shr (a : arith_uint256) (n : Z) : arith_uint256 := Z.shiftr a n.
Definition shl (a : arith_uint256) (n : Z) : arith_uint256 := wrap (Z.shiftl a n).

(** Modelled from the spec: [bnNew *= nActualTimespan].  The product is
    kept in 256 bits.  The scalar operand of [arith_uint256::operator*=]
    is a [uint32_t], so the [int64_t] argument is first reduced to 32 bits;
    for a timespan in [0, 2^32) that reduction is the identity. *)
Definition mul32 (a : arith_uint256) (b : Z) : arith_uint256 :=
  wrap (a * to_uint32 b).

(** Modelled from the spec: [bnNew /= nTargetTimespan], integer (floor)
    division; the [int64_t] divisor is converted through [uint64_t], and a
    zero divisor is an error. *)
Definition div (a : arith_uint256) (b : Z) : result arith_uint256 :=
  if to_uint64 b =? 0 then DivisionByZero else Ok (a / to_uint64 b).

(** Modelled from the spec: [arith_uint256::SetCompact], the decoder of
    section 4.1: the top byte of the 32-bit value is the exponent (a byte
    length), bit 23 the sign, the low 23 bits the mantissa; the magnitude is
    the mantissa moved to that byte length, the negative flag is the sign
    bit of a nonzero mantissa, the overflow flag says that the magnitude
    does not fit 256 bits. *)
Definition SetCompact (nCompact : Z) : arith_uint256 * bool * bool :=
  let nSize := Z.shiftr nCompact 24 in
  let nWord := Z.land nCompact 0x007fffff in
  let nWord' := if nSize <=? 3 then Z.shiftr nWord (8 * (3 - nSize)) else nWord in
  let value := if nSize <=? 3 then nWord' else shl nWord (8 * (nSize - 3)) in
  let fNegative := negb (nWord' =? 0) && negb (Z.land nCompact 0x00800000 =? 0) in
  let fOverflow :=
    negb (nWord' =? 0) &&
    ((nSize >? 34) || ((nWord' >? 0xff) && (nSize >? 33))
                   || ((nWord' >? 0xffff) && (nSize >? 32))) in
  (value, fNegative, fOverflow).

(** Modelled from the spec: [arith_uint256::GetCompact] (with the sign
    argument at its default, [false]), the encoder of section 4.1: the
    exponent is the byte length of the minimal representation, the mantissa
    its top three bytes; a mantissa that would set the sign bit is moved
    down one byte and the exponent raised. *)
Definition GetCompact (a : arith_uint256) : Z :=
  let nSize := (bits a + 7) / 8 in
  let nCompact :=
    if nSize <=? 3 then to_uint32 (Z.shiftl (to_uint64 a) (8 * (3 - nSize)))
    else to_uint32 (to_uint64 (shr a (8 * (nSize - 3)))) in
  let shifted := negb (Z.land nCompact 0x00800000 =? 0) in
  let nCompact' := if shifted then Z.shiftr nCompact 8 else nCompact in
  let nSize' := if shifted then nSize + 1 else nSize in
  Z.lor nCompact' (to_uint32 (Z.shiftl nSize' 24)).

Definition magnitude (d : arith_uint256 * bool * bool) : arith_uint256 :=
  fst (fst d).
Definition negative (d : arith_uint256 * bool * bool) : bool := snd (fst d).
Definition overflow (d : arith_uint256 * bool * bool) : bool := snd d.

End Arith256.
Import Arith256.

(** ** Data model *)

(** Modelled from the spec: the 256-bit blob type [uint256] (uint256.h is not
    part of the sources at hand), carried as the unsigned magnitude it
    denotes; [UintToArith256] reinterprets the blob as a number and keeps
    that magnitude. *)
Definition uint256 : Type := Z.

Definition UintToArith256 (a : uint256) : arith_uint256 := a.

(** Modelled from the spec: the block record of section 3 ([CBlockIndex],
    chain.h is not part of the sources at hand): a back-reference to at most
    one parent (none at genesis), a height ([int]), a timestamp ([uint32_t])
    and the compact difficulty bits ([uint32_t]). *)
Inductive CBlockIndex : Type :=
  BlockIndex {
    pprev : option CBlockIndex;
    nHeight : Z;
    nTime : Z;
    nBits : Z
  }.

(** [CBlockIndex::GetBlockTime]: the timestamp widened to [int64_t]. *)
Definition GetBlockTime (pindex : CBlockIndex) : Z := nTime pindex.

(** Modelled from the spec: the candidate block ([CBlockHeader],
    primitives/block.h is not part of the sources at hand); only its
    timestamp ([uint32_t], widened to [int64_t] by [GetBlockTime]) is read. *)
Record CBlockHeader : Type :=
  BlockHeader { header_nTime : Z }.

Definition GetHeaderTime (pblock : CBlockHeader) : Z := header_nTime pblock.

Module Consensus.

(** Modelled from the spec: the consensus parameter set of section 3
    (consensus/params.h is not part of the sources at hand). *)
Record Params : Type :=
  mkParams {
    powLimit : uint256;
    nPowTargetTimespan : Z;
    nPowTargetTimespan_Fork : Z;
    nPowTargetSpacing : Z;
    HardFork_Height : Z;
    fPowAllowMinDifficultyBlocks : bool;
    fPowNoRetargeting : bool
  }.

(** Modelled from the spec: the adjustment interval, "derived as timespan /
    spacing", and its post-fork replacement.  This is the value of
    the quotient for a nonzero spacing.  For a zero spacing the getter's own
    division faults in the program; here the value is then 0 and the fault
    shows at the first [%] of the caller, so the properties below that name
    the interval take it nonzero, which rules a zero spacing out. *)
Definition DifficultyAdjustmentInterval (params : Params) : Z :=
  to_int64 (Z.quot (nPowTargetTimespan params) (nPowTargetSpacing params)).

Definition DifficultyAdjustmentInterval_Fork (params : Params) : Z :=
  to_int64 (Z.quot (nPowTargetTimespan_Fork params) (nPowTargetSpacing params)).

End Consensus.
Import Consensus.

(** ** CalculateNextWorkRequired (pow.cpp, lines 93-138) *)

(** Line 101: the time the window actually took. *)
Definition ActualTimespan (pindexLast : CBlockIndex) (nFirstBlockTime : Z) : Z :=
  to_int64 (GetBlockTime pindexLast - nFirstBlockTime).

(** Lines 105-108: the adjustment step is limited to a factor of four. *)
Definition LimitTimespan (nActualTimespan nTargetTimespan : Z) : result Z :=
  do quarter <- int64_div nTargetTimespan 4;
  let nActualTimespan :=
    if nActualTimespan <? quarter then quarter else nActualTimespan in
  let fourfold := to_int64 (nTargetTimespan * 4) in
  Ok (if nActualTimespan >? fourfold then fourfold else nActualTimespan).

(** Line 119: whether the magnitude is halved around the multiplication.
    [bits()] is unsigned, so [bits() - 1] wraps for a zero limit. *)
Definition ShiftNeeded (bnNew bnPowLimit : arith_uint256) : bool :=
  bits bnNew >? to_uint32 (bits bnPowLimit - 1).

(** Lines 113-128: the rescaled magnitude, before it is compared with the
    difficulty limit; [nActualTimespan] is the limited timespan. *)
Definition Retarget (nBits : Z) (bnPowLimit : arith_uint256)
    (nActualTimespan nTargetTimespan : Z) : result arith_uint256 :=
  let bnNew := magnitude (SetCompact nBits) in
  let fShift := ShiftNeeded bnNew bnPowLimit in
  let bnNew := if fShift then shr bnNew 1 else bnNew in
  let bnNew := mul32 bnNew nActualTimespan in
  do bnNew <- div bnNew nTargetTimespan;
  Ok (if fShift then shl bnNew 1 else bnNew).

(** Lines 130-131. *)
Definition ClampToLimit (bnNew bnPowLimit : arith_uint256) : arith_uint256 :=
  if bnNew >? bnPowLimit then bnPowLimit else bnNew.

(** The magnitude [bnNew] that line 137 encodes. *)
Definition NewTarget (pindexLast : CBlockIndex) (nFirstBlockTime : Z)
    (params : Params) (nTargetTimespan : Z) : result arith_uint256 :=
  do nActualTimespan <-
    LimitTimespan (ActualTimespan pindexLast nFirstBlockTime) nTargetTimespan;
  let bnPowLimit := UintToArith256 (powLimit params) in
  do bnNew <- Retarget (nBits pindexLast) bnPowLimit nActualTimespan nTargetTimespan;
  Ok (ClampToLimit bnNew bnPowLimit).

Definition CalculateNextWorkRequired (pindexLast : CBlockIndex)
    (nFirstBlockTime : Z) (params : Params) (nTargetTimespan : Z) : result Z :=
  if fPowNoRetargeting params then Ok (nBits pindexLast)
  else
    do bnNew <- NewTarget pindexLast nFirstBlockTime params nTargetTimespan;
    Ok (GetCompact bnNew).

(** ** GetNextWorkRequired (pow.cpp, lines 15-90) *)

(** Lines 30-36: the adjustment interval and the target timespan in force. *)
Definition ActiveRegime (params : Params) (pindexLast : CBlockIndex) : Z * Z :=
  if nHeight pindexLast >=? HardFork_Height params
  then (DifficultyAdjustmentInterval_Fork params, nPowTargetTimespan_Fork params)
  else (DifficultyAdjustmentInterval params, nPowTargetTimespan params).

(** The three conditions of the loop at line 57. *)
Definition MinDifficultyStep (difficultyAdjustmentInterval nProofOfWorkLimit : Z)
    (pindex : CBlockIndex) : bool :=
  match pprev pindex with
  | Some _ =>
      negb (Z.rem (nHeight pindex) difficultyAdjustmentInterval =? 0)
      && (nBits pindex =? nProofOfWorkLimit)
  | None => false
  end.

(** Lines 53-63: the block at which the loop at line 57 stops. *)
Fixpoint MinDifficultyWalk (difficultyAdjustmentInterval nProofOfWorkLimit : Z)
    (pindex : CBlockIndex) : CBlockIndex :=
  match pprev pindex with
  | Some parent =>
      if negb (Z.rem (nHeight pindex) difficultyAdjustmentInterval =? 0)
         && (nBits pindex =? nProofOfWorkLimit)
      then MinDifficultyWalk difficultyAdjustmentInterval nProofOfWorkLimit parent
      else pindex
  | None => pindex
  end.

(** Lines 75-77. *)
Definition BlocksToGoBack (nHeightLast difficultyAdjustmentInterval : Z) : Z :=
  if negb (to_int32 (nHeightLast + 1) =? difficultyAdjustmentInterval)
  then to_int32 difficultyAdjustmentInterval
  else to_int32 (to_int64 (difficultyAdjustmentInterval - 1)).

(** Lines 81-83: the loop from counter [i], started at a non-null block;
    [None] is the null pointer. *)
Fixpoint GoBack (pindexFirst : CBlockIndex) (i blockstogoback : Z)
    : option CBlockIndex :=
  if i <? blockstogoback then
    match pprev pindexFirst with
    | Some parent => GoBack parent (i + 1) blockstogoback
    | None => None
    end
  else Some pindexFirst.

(** Lines 41-88, for a given adjustment interval and target timespan. *)
Definition NextWorkUnder (difficultyAdjustmentInterval nTargetTimespan : Z)
    (pindexLast : CBlockIndex) (pblock : CBlockHeader) (params : Params)
    : result Z :=
  let nProofOfWorkLimit := GetCompact (UintToArith256 (powLimit params)) in
  do r <- int64_rem (to_int32 (nHeight pindexLast + 1)) difficultyAdjustmentInterval;
  if negb (r =? 0) then
    if fPowAllowMinDifficultyBlocks params then
      if GetHeaderTime pblock >?
         to_int64 (GetBlockTime pindexLast + to_int64 (nPowTargetSpacing params * 2))
      then Ok nProofOfWorkLimit
      else Ok (nBits (MinDifficultyWalk difficultyAdjustmentInterval
                        nProofOfWorkLimit pindexLast))
    else Ok (nBits pindexLast)
  else
    let blockstogoback :=
      BlocksToGoBack (nHeight pindexLast) difficultyAdjustmentInterval in
    match GoBack pindexLast 0 blockstogoback with
    | None => AssertionFailed
    | Some pindexFirst =>
        CalculateNextWorkRequired pindexLast (GetBlockTime pindexFirst)
          params nTargetTimespan
    end.

Definition GetNextWorkRequired (pindexLast : option CBlockIndex)
    (pblock : CBlockHeader) (params : Params) : result Z :=
  match pindexLast with
  | None => AssertionFailed
  | Some pindexLast =>
      let '(difficultyAdjustmentInterval, nTargetTimespan) :=
        ActiveRegime params pindexLast in
      NextWorkUnder difficultyAdjustmentInterval nTargetTimespan
        pindexLast pblock params
  end.

(** ** CheckProofOfWork (pow.cpp, lines 140-157) *)

Definition CheckProofOfWork (hash : uint256) (nBits : Z) (params : Params) : bool :=
  let '(bnTarget, fNegative, fOverflow) := SetCompact nBits in
  if fNegative || (bnTarget =? 0) || fOverflow
     || (bnTarget >? UintToArith256 (powLimit params))
  then false
  else if UintToArith256 hash >? bnTarget then false
  else true.

(** ** Chains *)

(** Induction along the parent links, from genesis upwards. *)
Fixpoint chain_ind (P : CBlockIndex -> Prop)
    (Hgenesis : forall h t b, P (BlockIndex None h t b))
    (Hchild : forall parent h t b, P parent -> P (BlockIndex (Some parent) h t b))
    (pindex : CBlockIndex) : P pindex :=
  match pindex with
  | BlockIndex None h t b => Hgenesis h t b
  | BlockIndex (Some parent) h t b =>
      Hchild parent h t b (chain_ind P Hgenesis Hchild parent)
  end.

(** The number of parent links between a block and genesis. *)
Fixpoint depth (pindex : CBlockIndex) : nat :=
  match pprev pindex with
  | Some parent => S (depth parent)
  | None => O
  end.

(** A well-formed chain: every block's height is the number of parent links
    back to genesis (so genesis, the block without parent, has height 0). *)
Fixpoint well_formed (pindex : CBlockIndex) : bool :=
  (nHeight pindex =? Z.of_nat (depth pindex))
  && match pprev pindex with
     | Some parent => well_formed parent
     | None => true
     end.

(** A block on top of [parent]. *)
Definition child (parent : CBlockIndex) (time bits : Z) : CBlockIndex :=
  BlockIndex (Some parent) (nHeight parent + 1) time bits.

(** [n] further blocks spaced [spacing] seconds apart, all with [bits]. *)
Fixpoint grow (n : nat) (spacing bits : Z) (tip : CBlockIndex) : CBlockIndex :=
  match n with
  | O => tip
  | S n' => grow n' spacing bits (child tip (nTime tip + spacing) bits)
  end.

Definition genesis (time bits : Z) : CBlockIndex := BlockIndex None 0 time bits.

(** ** Parameter sets used in the examples *)

(** A main-network flavoured set: 3.5-day windows of 150-second blocks
    before the fork, one-hour windows after it. *)
Definition mainParams : Params :=
  {| powLimit := 2 ^ 236 - 1;
     nPowTargetTimespan := 302400;
     nPowTargetTimespan_Fork := 3600;
     nPowTargetSpacing := 150;
     HardFork_Height := 5000;
     fPowAllowMinDifficultyBlocks := false;
     fPowNoRetargeting := false |}.

(** The same with the minimum-difficulty rule of the test network. *)
Definition testParams : Params :=
  {| powLimit := 2 ^ 236 - 1;
     nPowTargetTimespan := 302400;
     nPowTargetTimespan_Fork := 3600;
     nPowTargetSpacing := 150;
     HardFork_Height := 5000;
     fPowAllowMinDifficultyBlocks := true;
     fPowNoRetargeting := false |}.

(** ** Notions and data used by the properties *)

(** *** The hard-fork parameter switch *)



(** A chain of 24 blocks (heights 0 to 23), 300 seconds apart. *)
Definition fork_chain : CBlockIndex :=
  grow 23 300 0x1d00ffff (genesis 1000000 0x1d00ffff).

(** [mainParams] with the fork at height [h]. *)
Definition forkAt (h : Z) : Params :=
  {| powLimit := 2 ^ 236 - 1;
     nPowTargetTimespan := 302400;
     nPowTargetTimespan_Fork := 3600;
     nPowTargetSpacing := 150;
     HardFork_Height := h;
     fPowAllowMinDifficultyBlocks := false;
     fPowNoRetargeting := false |}.

(** *** The minimum-difficulty rule of the test network *)

(** The blocks from [pindex] back to genesis, [pindex] first. *)
Fixpoint ancestors (pindex : CBlockIndex) : list CBlockIndex :=
  pindex :: match pprev pindex with
            | Some parent => ancestors parent
            | None => []
            end.

(** A test-network chain: a regular genesis block followed by two
    minimum-difficulty blocks. *)
Definition testnet_genesis : CBlockIndex := genesis 1000000 0x1d00ffff.
Definition testnet_block1 : CBlockIndex := child testnet_genesis 1000400 0x1e0fffff.
Definition testnet_block2 : CBlockIndex := child testnet_block1 1000800 0x1e0fffff.

(** The sum of line 48 does not wrap in [int64_t]. *)
Definition gap_limit_fits (pindexLast : CBlockIndex) (params : Params) : Prop :=
  is_int64 (nPowTargetSpacing params * 2)
  /\ is_int64 (GetBlockTime pindexLast + nPowTargetSpacing params * 2).

(** The minimum-difficulty rule on, one-hour windows of 150-second blocks
    in both regimes. *)
Definition hourlyTestParams : Params :=
  {| powLimit := 2 ^ 236 - 1;
     nPowTargetTimespan := 3600;
     nPowTargetTimespan_Fork := 3600;
     nPowTargetSpacing := 150;
     HardFork_Height := 5000;
     fPowAllowMinDifficultyBlocks := true;
     fPowNoRetargeting := false |}.

(** *** The retarget calculation *)

(** The magnitude that enters the multiplication of line 124. *)
Definition Halved (nBits : Z) (bnPowLimit : arith_uint256) : arith_uint256 :=
  let bnNew := magnitude (SetCompact nBits) in
  if ShiftNeeded bnNew bnPowLimit then shr bnNew 1 else bnNew.

(** The product of the halved magnitude with the largest limited timespan
    stays within 256 bits. *)
Definition product_fits (nBits : Z) (bnPowLimit : arith_uint256) (T : Z) : Prop :=
  Halved nBits bnPowLimit * (T * 4) < 2 ^ 256.

(** A difficulty limit as wide as the regression-test network's, with
    retargeting left on and two-week windows of ten-minute blocks. *)
Definition wideLimitParams : Params :=
  {| powLimit := 2 ^ 255 - 1;
     nPowTargetTimespan := 1209600;
     nPowTargetTimespan_Fork := 1209600;
     nPowTargetSpacing := 600;
     HardFork_Height := 0;
     fPowAllowMinDifficultyBlocks := false;
     fPowNoRetargeting := false |}.

(** A block at the difficulty limit of [wideLimitParams]. *)
Definition wide_block : CBlockIndex := BlockIndex None 2015 1500000000 0x207fffff.

(** A block at the difficulty limit of [mainParams]. *)
Definition main_block : CBlockIndex := BlockIndex None 2015 1500000000 0x1e0fffff.

(** *** The halving around the multiplication *)

(** A block whose target has one bit less than the limit of [mainParams]. *)
Definition half_limit_block : CBlockIndex :=
  BlockIndex None 2015 1500000000 0x1e07ffff.

(** *** The encoder in arithmetic terms *)

(** The top three bytes of a magnitude of byte length [n]. *)
Definition top_bytes (a n : Z) : Z :=
  if n <=? 3 then a * 2 ^ (8 * (3 - n)) else a / 2 ^ (8 * (n - 3)).

(** *** Round trip *)

(** A magnitude is exactly expressible in the compact form when it is a
    23-bit mantissa (sign bit clear) followed by whole zero bytes, within
    256 bits. *)
Definition expressible (m : arith_uint256) : Prop :=
  exists mantissa k,
    0 <= mantissa < 2 ^ 23 /\ 0 <= k /\ m = mantissa * 2 ^ (8 * k) /\ m < 2 ^ 256.

(** *** Further parameter sets and chains *)

(** [hourlyTestParams] with retargeting switched off. *)
Definition noRetargetParams : Params :=
  {| powLimit := 2 ^ 236 - 1;
     nPowTargetTimespan := 3600;
     nPowTargetTimespan_Fork := 3600;
     nPowTargetSpacing := 150;
     HardFork_Height := 5000;
     fPowAllowMinDifficultyBlocks := true;
     fPowNoRetargeting := true |}.

(** A target timespan shorter than the spacing. *)
Definition shortTimespanParams : Params :=
  {| powLimit := 2 ^ 236 - 1;
     nPowTargetTimespan := 100;
     nPowTargetTimespan_Fork := 100;
     nPowTargetSpacing := 150;
     HardFork_Height := 5000;
     fPowAllowMinDifficultyBlocks := false;
     fPowNoRetargeting := false |}.

(** Two 24-block windows (heights 0 to 47), 300 seconds apart. *)
Definition two_windows : CBlockIndex :=
  grow 47 300 0x1d00ffff (genesis 1000000 0x1d00ffff).

(** A block that claims height 47 without any parent. *)
Definition orphan_block : CBlockIndex := BlockIndex None 47 1000000 0x1d00ffff.

(** A test-network chain whose tip has a regular difficulty. *)
Definition testnet_block3 : CBlockIndex := child testnet_block2 1001200 0x1d00ffff.

(** *** The lossy step of the encoder *)

(** What is left of a magnitude once the encoder has kept its top three
    bytes, or its top two when the third would set the sign bit. *)
Definition truncated (a : arith_uint256) : arith_uint256 :=
  let n := (bits a + 7) / 8 in
  let c := top_bytes a n in
  if c <? 2 ^ 23
  then (if n <=? 3 then a else c * 2 ^ (8 * (n - 3)))
  else (if n <=? 2 then a else c / 2 ^ 8 * 2 ^ (8 * (n - 2))).

(** *** The regime in force *)

(** What it means for a call to run on a given adjustment interval and
    target timespan, place by place and in terms of the chain:
    - the boundary test: a zero interval makes the call divide by zero; the
      call takes the no-retarget branch exactly when the next height is not
      a multiple of the interval;
    - the walk-back: in that branch, with the minimum-difficulty rule on and
      no gap, the bits returned are those of the first block, counted from
      the last one, that has no parent, or whose height is a multiple of the
      interval, or whose bits are not the compact limit;
    - the window length: on a boundary the window starts [interval] links
      below the last block, or [interval - 1] when the next height is the
      interval itself, and the assertion fails when the chain is shorter;
    - the retarget calculation: it is run with the target timespan. *)
Definition RunsUnder (interval timespan : Z) (pindexLast : CBlockIndex)
    (pblock : CBlockHeader) (params : Params) : Prop :=
  let limit := GetCompact (UintToArith256 (powLimit params)) in
  let result := GetNextWorkRequired (Some pindexLast) pblock params in
  let gap :=
    GetHeaderTime pblock >?
    to_int64 (GetBlockTime pindexLast + to_int64 (nPowTargetSpacing params * 2)) in
  (interval = 0 -> result = DivisionByZero)
  /\ (interval <> 0 -> Z.rem (nHeight pindexLast + 1) interval <> 0 ->
      (fPowAllowMinDifficultyBlocks params = false -> result = Ok (nBits pindexLast))
      /\ (fPowAllowMinDifficultyBlocks params = true -> gap = true ->
          result = Ok limit)
      /\ (fPowAllowMinDifficultyBlocks params = true -> gap = false ->
          exists (n : nat) (stop : CBlockIndex),
            nth_error (ancestors pindexLast) n = Some stop
            /\ (forall i b, (i < n)%nat ->
                  nth_error (ancestors pindexLast) i = Some b ->
                  pprev b <> None /\ Z.rem (nHeight b) interval <> 0
                  /\ nBits b = limit)
            /\ (pprev stop = None \/ Z.rem (nHeight stop) interval = 0
                \/ nBits stop <> limit)
            /\ result = Ok (nBits stop)))
  /\ (interval <> 0 -> Z.rem (nHeight pindexLast + 1) interval = 0 ->
      result
      = match nth_error (ancestors pindexLast)
                (Z.to_nat (if nHeight pindexLast + 1 =? interval
                           then interval - 1 else interval)) with
        | Some pindexFirst =>
            CalculateNextWorkRequired pindexLast (GetBlockTime pindexFirst)
              params timespan
        | None => AssertionFailed
        end).

(** * Properties *)

(** ** Outcomes *)

Lemma Ok_inj {A : Type} (a b : A) : Ok a = Ok b -> a = b.
Proof. intro H. exact (f_equal (fun r => match r with Ok x => x | _ => a end) H). Qed.

(** ** The embedding on known values *)

Example SetCompact_1d00ffff :
  SetCompact 0x1d00ffff = (0xffff * 2 ^ 208, false, false).
Proof. vm_compute. reflexivity. Qed.

Example GetCompact_1d00ffff : GetCompact (0xffff * 2 ^ 208) = 0x1d00ffff.
Proof. vm_compute. reflexivity. Qed.

Example GetCompact_sign_bit : GetCompact 0x80 = 0x02008000.
Proof. vm_compute. reflexivity. Qed.

Example SetCompact_negative : SetCompact 0x01fedcba = (0x7e, true, false).
Proof. vm_compute. reflexivity. Qed.

Example SetCompact_overflow : overflow (SetCompact 0xff123456) = true.
Proof. vm_compute. reflexivity. Qed.

Example mainParams_limit : GetCompact (powLimit mainParams) = 0x1e0fffff.
Proof. vm_compute. reflexivity. Qed.

Example mainParams_intervals :
  DifficultyAdjustmentInterval mainParams = 2016
  /\ DifficultyAdjustmentInterval_Fork mainParams = 24.
Proof. vm_compute. split; reflexivity. Qed.

(** ** Proof-of-work verification *)

(** C1: [CheckProofOfWork hash nBits params] is true exactly when the decoded
    target has its negative and overflow flags clear, is nonzero, does not
    exceed the difficulty limit, and [hash <= target] as unsigned magnitudes.
    In particular a hash one unit above the target is rejected, and a hash
    equal to the target is accepted exactly when the target is in range. *)
Theorem CheckProofOfWork_boundary (hash : uint256) (nBits : Z) (params : Params) :
  let t := magnitude (SetCompact nBits) in
  let in_limits :=
    negative (SetCompact nBits) = false /\ overflow (SetCompact nBits) = false
    /\ t <> 0 /\ t <= UintToArith256 (powLimit params) in
  (CheckProofOfWork hash nBits params = true
     <-> in_limits /\ UintToArith256 hash <= t)
  /\ CheckProofOfWork (t + 1) nBits params = false
  /\ (CheckProofOfWork t nBits params = true <-> in_limits).
Proof.
  assert (Hiff : forall h,
    CheckProofOfWork h nBits params = true <->
    (negative (SetCompact nBits) = false /\ overflow (SetCompact nBits) = false
     /\ magnitude (SetCompact nBits) <> 0
     /\ magnitude (SetCompact nBits) <= UintToArith256 (powLimit params))
    /\ UintToArith256 h <= magnitude (SetCompact nBits)).
  { intro h. unfold CheckProofOfWork, negative, overflow, magnitude, UintToArith256.
    destruct (SetCompact nBits) as [[t neg] ovf]; cbn [fst snd].
    destruct neg, ovf; cbn [orb];
      rewrite ?orb_true_r; cbn [orb];
      try (split; [discriminate | intros [(? & ? & _) _]; discriminate]).
    destruct (Z.eqb_spec t 0) as [Hz | Hz]; cbn [orb].
    - split; [discriminate | intros [(_ & _ & Hn & _) _]; contradiction].
    - destruct (Z.gtb_spec t (powLimit params)); cbn.
      + split; [discriminate | intros [(_ & _ & _ & Hle) _]; lia].
      + destruct (Z.gtb_spec h t).
        * split; [discriminate | intros [_ Hle]; lia].
        * split; [intros _; repeat split; auto; lia | reflexivity]. }
  intros t in_limits. subst t in_limits.
  split; [apply Hiff | split].
  - destruct (CheckProofOfWork (magnitude (SetCompact nBits) + 1) nBits params) eqn:E;
      [| reflexivity].
    apply Hiff in E. unfold UintToArith256 in E. lia.
  - split.
    + intro H. apply Hiff in H. apply H.
    + intro H. apply Hiff. split; [exact H | unfold UintToArith256; lia].
Qed.

Example CheckProofOfWork_at_target :
  CheckProofOfWork (0xffff * 2 ^ 208) 0x1d00ffff mainParams = true
  /\ CheckProofOfWork (0xffff * 2 ^ 208 + 1) 0x1d00ffff mainParams = false
  /\ CheckProofOfWork 0 0x1f00ffff mainParams = false.
Proof. vm_compute. repeat split. Qed.

(** ** The hard-fork parameter switch *)




(** [fork_chain] is at a retarget boundary only under the one-hour regime:
    with the fork at height 23 the window is rescaled, with the fork at
    height 24 the last bits are kept. *)
Example fork_switch :
  nHeight fork_chain = 23
  /\ GetNextWorkRequired (Some fork_chain) (BlockHeader 1007200) (forkAt 23)
     = Ok 0x1d01eaa8
  /\ GetNextWorkRequired (Some fork_chain) (BlockHeader 1007200) (forkAt 24)
     = Ok 0x1d00ffff.
Proof. vm_compute. repeat split. Qed.

(** ** Machine-range facts *)

Lemma to_int32_id (x : Z) : is_int32 x -> to_int32 x = x.
Proof.
  unfold is_int32, to_int32. intro H.
  rewrite Z.mod_small by lia. lia.
Qed.

Lemma to_int64_id (x : Z) : is_int64 x -> to_int64 x = x.
Proof.
  unfold is_int64, to_int64. intro H.
  rewrite Z.mod_small by lia. lia.
Qed.

Lemma to_uint32_id (x : Z) : is_uint32 x -> to_uint32 x = x.
Proof. unfold is_uint32, to_uint32. intro H. apply Z.mod_small. lia. Qed.

Lemma to_int64_range (x : Z) : is_int64 (to_int64 x).
Proof.
  unfold is_int64, to_int64.
  pose proof (Z.mod_pos_bound (x + 2 ^ 63) (2 ^ 64) ltac:(lia)). lia.
Qed.

Lemma rem_range (a b : Z) : 0 <= a -> b <> 0 -> 0 <= Z.rem a b <= a.
Proof.
  intros Ha Hb. split; [apply Z.rem_nonneg; assumption |].
  destruct (Z.lt_total b 0) as [Hneg | [Hz | Hpos]]; [| contradiction |].
  - replace b with (- (- b)) by lia. rewrite Z.rem_opp_r by lia.
    destruct (Z.le_gt_cases a 0); [replace a with 0 by lia; rewrite Z.rem_0_l; lia |].
    apply Z.rem_le; lia.
  - destruct (Z.le_gt_cases a 0); [replace a with 0 by lia; rewrite Z.rem_0_l; lia |].
    apply Z.rem_le; lia.
Qed.

(** The boundary test of line 41 on heights an [int] can hold. *)
Lemma boundary_test (h interval : Z) :
  0 <= h < 2 ^ 31 - 1 -> interval <> 0 ->
  int64_rem (to_int32 (h + 1)) interval = Ok (Z.rem (h + 1) interval).
Proof.
  intros Hh Hi. unfold int64_rem.
  destruct (Z.eqb_spec interval 0); [contradiction |].
  rewrite to_int32_id by (unfold is_int32; lia).
  pose proof (rem_range (h + 1) interval ltac:(lia) Hi).
  rewrite to_int64_id by (unfold is_int64; lia). reflexivity.
Qed.

(** ** The minimum-difficulty rule of the test network *)

(** The walk of lines 53-63 stops at the first block, counted from
    [pindex], that fails one of the three loop conditions. *)
Lemma MinDifficultyWalk_stops (interval limit : Z) (pindex : CBlockIndex) :
  exists n : nat,
    nth_error (ancestors pindex) n = Some (MinDifficultyWalk interval limit pindex)
    /\ (forall i b, (i < n)%nat -> nth_error (ancestors pindex) i = Some b ->
                    MinDifficultyStep interval limit b = true)
    /\ MinDifficultyStep interval limit (MinDifficultyWalk interval limit pindex)
       = false.
Proof.
  induction pindex as [h t b | parent h t b IH] using chain_ind.
  - exists O. cbn. repeat split. intros i b0 Hi. lia.
  - destruct (MinDifficultyStep interval limit (BlockIndex (Some parent) h t b)) eqn:E.
    + destruct IH as (n & Hn & Hbefore & Hstop).
      exists (S n).
      assert (Hw : MinDifficultyWalk interval limit (BlockIndex (Some parent) h t b)
                   = MinDifficultyWalk interval limit parent).
      { unfold MinDifficultyStep in E. cbn in E. cbn. rewrite E. reflexivity. }
      rewrite Hw. split; [exact Hn | split; [| exact Hstop]].
      intros [| i] b0 Hi Hb0.
      * cbn in Hb0. injection Hb0 as <-. exact E.
      * apply (Hbefore i); [lia | exact Hb0].
    + exists O.
      assert (Hw : MinDifficultyWalk interval limit (BlockIndex (Some parent) h t b)
                   = BlockIndex (Some parent) h t b).
      { unfold MinDifficultyStep in E. cbn in E. cbn. rewrite E. reflexivity. }
      rewrite Hw. split; [reflexivity | split; [| exact E]].
      intros i b0 Hi. lia.
Qed.

(** Lines 41-66 when the next height is no retarget boundary and the
    minimum-difficulty rule is switched on. *)
Lemma NextWorkUnder_min_difficulty (interval T : Z) (pindexLast : CBlockIndex)
    (pblock : CBlockHeader) (params : Params) :
  0 <= nHeight pindexLast < 2 ^ 31 - 1 ->
  interval <> 0 ->
  Z.rem (nHeight pindexLast + 1) interval <> 0 ->
  fPowAllowMinDifficultyBlocks params = true ->
  gap_limit_fits pindexLast params ->
  NextWorkUnder interval T pindexLast pblock params
  = if GetHeaderTime pblock >? GetBlockTime pindexLast + nPowTargetSpacing params * 2
    then Ok (GetCompact (UintToArith256 (powLimit params)))
    else Ok (nBits (MinDifficultyWalk interval
                      (GetCompact (UintToArith256 (powLimit params))) pindexLast)).
Proof.
  intros Hh Hi Hrem Hallow [Hs Hsum]. unfold NextWorkUnder.
  rewrite boundary_test by assumption. cbn [bind].
  destruct (Z.eqb_spec (Z.rem (nHeight pindexLast + 1) interval) 0); [contradiction |].
  cbn [negb]. rewrite Hallow.
  rewrite (to_int64_id (nPowTargetSpacing params * 2)) by assumption.
  rewrite to_int64_id by assumption. reflexivity.
Qed.

(** C3, as stated, fails at a retarget boundary: on a chain of 24 blocks
    (heights 0 to 23, 300 seconds apart) under 24-block windows, a candidate
    far later than twice the spacing after the last block still gets the
    retargeted value, not the compact difficulty limit. *)
Lemma gap_rule_skipped_at_boundary :
  fPowAllowMinDifficultyBlocks hourlyTestParams = true
  /\ GetHeaderTime (BlockHeader 1100000)
     > GetBlockTime fork_chain + 2 * nPowTargetSpacing hourlyTestParams
  /\ GetNextWorkRequired (Some fork_chain) (BlockHeader 1100000) hourlyTestParams
     = Ok 0x1d01eaa8
  /\ GetCompact (UintToArith256 (powLimit hourlyTestParams)) = 0x1e0fffff
  /\ GetNextWorkRequired (Some fork_chain) (BlockHeader 1100000) hourlyTestParams
     <> Ok (GetCompact (UintToArith256 (powLimit hourlyTestParams))).
Proof.
  vm_compute. repeat split; discriminate.
Qed.

(** C3 (amended): with the minimum-difficulty rule on, when the next height
    is not a retarget boundary for the interval in force and the candidate's
    timestamp is strictly greater than the last block's plus twice the
    target spacing (the sum fitting 64 bits), [GetNextWorkRequired] returns
    exactly the compact encoding of the difficulty limit. *)
Theorem min_difficulty_gap_rule (pindexLast : CBlockIndex)
    (pblock : CBlockHeader) (params : Params) :
  fPowAllowMinDifficultyBlocks params = true ->
  0 <= nHeight pindexLast < 2 ^ 31 - 1 ->
  fst (ActiveRegime params pindexLast) <> 0 ->
  Z.rem (nHeight pindexLast + 1) (fst (ActiveRegime params pindexLast)) <> 0 ->
  gap_limit_fits pindexLast params ->
  GetHeaderTime pblock > GetBlockTime pindexLast + 2 * nPowTargetSpacing params ->
  GetNextWorkRequired (Some pindexLast) pblock params
  = Ok (GetCompact (UintToArith256 (powLimit params))).
Proof.
  intros Hallow Hh Hi Hrem Hfits Hgap. unfold GetNextWorkRequired.
  destruct (ActiveRegime params pindexLast) as [interval T]. cbn [fst] in Hi, Hrem.
  rewrite NextWorkUnder_min_difficulty by assumption.
  destruct (Z.gtb_spec (GetHeaderTime pblock)
              (GetBlockTime pindexLast + nPowTargetSpacing params * 2));
    [reflexivity | lia].
Qed.

Lemma min_difficulty_gap_rule_witness :
  GetNextWorkRequired (Some testnet_block2) (BlockHeader 1001101) testParams
  = Ok 0x1e0fffff.
Proof.
  apply (min_difficulty_gap_rule testnet_block2 (BlockHeader 1001101) testParams).
  - reflexivity.
  - cbn. lia.
  - vm_compute. discriminate.
  - vm_compute. discriminate.
  - unfold gap_limit_fits, is_int64. cbn. lia.
  - cbn. lia.
Defined.

(** C4: with the minimum-difficulty rule on, when the next height is not a
    retarget boundary and the candidate's timestamp is at most the last
    block's plus twice the target spacing, [GetNextWorkRequired] walks back
    from the last block via parent links while the block has a parent, its
    height is not a multiple of the adjustment interval and its bits are the
    compact difficulty limit, and returns the bits of the block the walk
    ends on: every block passed satisfies the three conditions, the block
    reached is the first that does not (the last block with a regular
    difficulty, when the walk stops for the third condition). *)
Theorem min_difficulty_walk_back (pindexLast : CBlockIndex)
    (pblock : CBlockHeader) (params : Params) :
  fPowAllowMinDifficultyBlocks params = true ->
  0 <= nHeight pindexLast < 2 ^ 31 - 1 ->
  fst (ActiveRegime params pindexLast) <> 0 ->
  Z.rem (nHeight pindexLast + 1) (fst (ActiveRegime params pindexLast)) <> 0 ->
  gap_limit_fits pindexLast params ->
  GetHeaderTime pblock <= GetBlockTime pindexLast + 2 * nPowTargetSpacing params ->
  exists (n : nat) (stop : CBlockIndex),
    nth_error (ancestors pindexLast) n = Some stop
    /\ (forall i b, (i < n)%nat -> nth_error (ancestors pindexLast) i = Some b ->
          MinDifficultyStep (fst (ActiveRegime params pindexLast))
            (GetCompact (UintToArith256 (powLimit params))) b = true)
    /\ MinDifficultyStep (fst (ActiveRegime params pindexLast))
         (GetCompact (UintToArith256 (powLimit params))) stop = false
    /\ GetNextWorkRequired (Some pindexLast) pblock params = Ok (nBits stop).
Proof.
  intros Hallow Hh Hi Hrem Hfits Hgap. unfold GetNextWorkRequired.
  destruct (ActiveRegime params pindexLast) as [interval T]. cbn [fst] in *.
  rewrite NextWorkUnder_min_difficulty by assumption.
  destruct (Z.gtb_spec (GetHeaderTime pblock)
              (GetBlockTime pindexLast + nPowTargetSpacing params * 2)); [lia |].
  destruct (MinDifficultyWalk_stops interval
              (GetCompact (UintToArith256 (powLimit params))) pindexLast)
    as (n & Hn & Hbefore & Hstop).
  exists n, (MinDifficultyWalk interval
               (GetCompact (UintToArith256 (powLimit params))) pindexLast).
  repeat split; assumption.
Qed.

Lemma min_difficulty_walk_back_witness :
  exists (n : nat) (stop : CBlockIndex),
    nth_error (ancestors testnet_block2) n = Some stop
    /\ (forall i b, (i < n)%nat -> nth_error (ancestors testnet_block2) i = Some b ->
          MinDifficultyStep (fst (ActiveRegime testParams testnet_block2))
            (GetCompact (UintToArith256 (powLimit testParams))) b = true)
    /\ MinDifficultyStep (fst (ActiveRegime testParams testnet_block2))
         (GetCompact (UintToArith256 (powLimit testParams))) stop = false
    /\ GetNextWorkRequired (Some testnet_block2) (BlockHeader 1001100) testParams
       = Ok (nBits stop).
Proof.
  apply (min_difficulty_walk_back testnet_block2 (BlockHeader 1001100) testParams).
  - reflexivity.
  - cbn. lia.
  - vm_compute. discriminate.
  - vm_compute. discriminate.
  - unfold gap_limit_fits, is_int64. cbn. lia.
  - cbn. lia.
Defined.

(** ** The retarget window *)

Lemma well_formed_height (pindex : CBlockIndex) :
  well_formed pindex = true -> nHeight pindex = Z.of_nat (depth pindex).
Proof.
  destruct pindex as [[parent |] h t b]; cbn; intro H;
    apply andb_true_iff in H; destruct H as [H _]; apply Z.eqb_eq in H; exact H.
Qed.

(** Walking back no more links than the chain has below the block never
    reaches the null pointer. *)
Lemma GoBack_within_depth (pindex : CBlockIndex) :
  forall i blockstogoback,
    blockstogoback - i <= Z.of_nat (depth pindex) ->
    exists pindexFirst, GoBack pindex i blockstogoback = Some pindexFirst.
Proof.
  induction pindex as [h t b | parent h t b IH] using chain_ind; intros i n Hn.
  - cbn in *. destruct (Z.ltb_spec i n); [lia | eauto].
  - cbn [GoBack pprev]. destruct (Z.ltb_spec i n); [| eauto].
    apply IH. cbn [depth pprev] in Hn. lia.
Qed.

(** On a boundary the number of links to walk is at most the height. *)
Lemma BlocksToGoBack_le_height (h interval : Z) :
  0 <= h < 2 ^ 31 - 1 -> interval <> 0 ->
  Z.rem (h + 1) interval = 0 ->
  BlocksToGoBack h interval <= h.
Proof.
  intros Hh Hi Hrem. unfold BlocksToGoBack.
  rewrite (to_int32_id (h + 1)) by (unfold is_int32; lia).
  apply Z.rem_divide in Hrem; [| assumption]. destruct Hrem as [k Hk].
  destruct (Z.eqb_spec (h + 1) interval) as [E | E]; cbn [negb].
  - subst interval.
    rewrite to_int64_id by (unfold is_int64; lia).
    rewrite to_int32_id by (unfold is_int32; lia). lia.
  - assert (Hk0 : k <> 0) by (intro; subst k; lia).
    assert (Habs : - (h + 1) <= interval <= h + 1) by nia.
    rewrite to_int32_id by (unfold is_int32; lia).
    destruct (Z.le_gt_cases interval 0); [lia |].
    assert (2 <= k) by nia. nia.
Qed.

Lemma CalculateNextWorkRequired_no_assert (pindexLast : CBlockIndex)
    (nFirstBlockTime : Z) (params : Params) (nTargetTimespan : Z) :
  CalculateNextWorkRequired pindexLast nFirstBlockTime params nTargetTimespan
  <> AssertionFailed.
Proof.
  unfold CalculateNextWorkRequired, NewTarget, LimitTimespan, Retarget, div, int64_div.
  destruct (fPowNoRetargeting params); [discriminate |].
  cbn. destruct (to_uint64 nTargetTimespan =? 0); cbn; discriminate.
Qed.

(** Lines 75-88 on a well-formed chain, for any nonzero interval whose
    boundary the next height is. *)
Lemma NextWorkUnder_window_exists (interval T : Z) (pindexLast : CBlockIndex)
    (pblock : CBlockHeader) (params : Params) :
  well_formed pindexLast = true ->
  nHeight pindexLast < 2 ^ 31 - 1 ->
  interval <> 0 ->
  Z.rem (nHeight pindexLast + 1) interval = 0 ->
  (exists pindexFirst,
     GoBack pindexLast 0 (BlocksToGoBack (nHeight pindexLast) interval)
     = Some pindexFirst)
  /\ NextWorkUnder interval T pindexLast pblock params <> AssertionFailed.
Proof.
  intros Hwf Hh Hi Hrem.
  pose proof (well_formed_height _ Hwf) as Hd.
  assert (Hh' : 0 <= nHeight pindexLast < 2 ^ 31 - 1) by lia.
  pose proof (BlocksToGoBack_le_height _ _ Hh' Hi Hrem) as Hle.
  destruct (GoBack_within_depth pindexLast 0
              (BlocksToGoBack (nHeight pindexLast) interval) ltac:(lia))
    as [pindexFirst Hfirst].
  split; [eauto |].
  unfold NextWorkUnder. rewrite boundary_test by assumption. cbn [bind].
  rewrite Hrem. cbn [Z.eqb negb]. rewrite Hfirst.
  apply CalculateNextWorkRequired_no_assert.
Qed.

(** C8: on a well-formed chain, whenever the next height is a retarget
    boundary of the interval in force, the backward walk over
    [blockstogoback] parent links ends on a block of the chain: the first
    block of the window exists and the call does not end in the assertion
    after the walk. *)
Theorem window_walk_stays_on_chain (pindexLast : CBlockIndex)
    (pblock : CBlockHeader) (params : Params) :
  well_formed pindexLast = true ->
  nHeight pindexLast < 2 ^ 31 - 1 ->
  fst (ActiveRegime params pindexLast) <> 0 ->
  Z.rem (nHeight pindexLast + 1) (fst (ActiveRegime params pindexLast)) = 0 ->
  (exists pindexFirst,
     GoBack pindexLast 0
       (BlocksToGoBack (nHeight pindexLast) (fst (ActiveRegime params pindexLast)))
     = Some pindexFirst)
  /\ GetNextWorkRequired (Some pindexLast) pblock params <> AssertionFailed.
Proof.
  intros Hwf Hh Hi Hrem. unfold GetNextWorkRequired.
  destruct (ActiveRegime params pindexLast) as [interval T]. cbn [fst] in *.
  apply NextWorkUnder_window_exists; assumption.
Qed.

Lemma window_walk_stays_on_chain_witness :
  (exists pindexFirst,
     GoBack fork_chain 0
       (BlocksToGoBack (nHeight fork_chain)
          (fst (ActiveRegime hourlyTestParams fork_chain)))
     = Some pindexFirst)
  /\ GetNextWorkRequired (Some fork_chain) (BlockHeader 1007200) hourlyTestParams
     <> AssertionFailed.
Proof.
  apply (window_walk_stays_on_chain fork_chain (BlockHeader 1007200) hourlyTestParams).
  - vm_compute. reflexivity.
  - vm_compute. reflexivity.
  - vm_compute. discriminate.
  - vm_compute. reflexivity.
Defined.

(** The walk is exact: on the first boundary after genesis it ends on
    genesis itself, and a chain cut short of its window does trip the
    assertion. *)
Example first_window_starts_at_genesis :
  option_map nHeight
    (GoBack fork_chain 0
       (BlocksToGoBack (nHeight fork_chain)
          (fst (ActiveRegime hourlyTestParams fork_chain))))
  = Some 0.
Proof. vm_compute. reflexivity. Qed.

Example ill_formed_chain_asserts :
  GetNextWorkRequired (Some (BlockIndex None 47 1000000 0x1d00ffff))
    (BlockHeader 1000300) hourlyTestParams
  = AssertionFailed.
Proof. vm_compute. reflexivity. Qed.

(** ** The retarget calculation *)

Lemma to_uint64_positive (T : Z) : is_int64 T -> 0 < T -> to_uint64 T = T.
Proof.
  unfold is_int64, to_uint64. intros H Hpos. apply Z.mod_small. lia.
Qed.

(** C10: with retargeting on and a strictly positive target timespan, both
    divisions of [CalculateNextWorkRequired] (the quarter of the target
    timespan and the division of the magnitude by the target timespan) have
    a nonzero divisor, and the call returns a compact target. *)
Theorem CalculateNextWorkRequired_total (pindexLast : CBlockIndex)
    (nFirstBlockTime : Z) (params : Params) (nTargetTimespan : Z) :
  fPowNoRetargeting params = false ->
  is_int64 nTargetTimespan ->
  0 < nTargetTimespan ->
  (exists quarter, int64_div nTargetTimespan 4 = Ok quarter)
  /\ (forall bnNew, exists quotient, div bnNew nTargetTimespan = Ok quotient)
  /\ (exists nBitsNew,
        CalculateNextWorkRequired pindexLast nFirstBlockTime params nTargetTimespan
        = Ok nBitsNew)
  /\ CalculateNextWorkRequired pindexLast nFirstBlockTime params nTargetTimespan
     <> DivisionByZero.
Proof.
  intros Hretarget Hrange Hpos.
  assert (Hquarter : exists quarter, int64_div nTargetTimespan 4 = Ok quarter)
    by (unfold int64_div; cbn; eauto).
  assert (Hdiv : forall bnNew, exists quotient, div bnNew nTargetTimespan = Ok quotient).
  { intro bnNew. unfold div. rewrite to_uint64_positive by assumption.
    destruct (Z.eqb_spec nTargetTimespan 0); [lia | eauto]. }
  assert (Hok : exists nBitsNew,
             CalculateNextWorkRequired pindexLast nFirstBlockTime params nTargetTimespan
             = Ok nBitsNew).
  { unfold CalculateNextWorkRequired, NewTarget, LimitTimespan, Retarget.
    rewrite Hretarget. destruct Hquarter as [quarter ->]. cbn [bind].
    match goal with
    | |- context [div ?bn nTargetTimespan] => destruct (Hdiv bn) as [quotient ->]
    end.
    cbn [bind]. eauto. }
  repeat split; try assumption.
  destruct Hok as [nBitsNew ->]. discriminate.
Qed.

Lemma CalculateNextWorkRequired_total_witness :
  (exists quarter, int64_div 3600 4 = Ok quarter)
  /\ (forall bnNew, exists quotient, div bnNew 3600 = Ok quotient)
  /\ (exists nBitsNew,
        CalculateNextWorkRequired fork_chain 1000000 mainParams 3600 = Ok nBitsNew)
  /\ CalculateNextWorkRequired fork_chain 1000000 mainParams 3600 <> DivisionByZero.
Proof.
  apply (CalculateNextWorkRequired_total fork_chain 1000000 mainParams 3600).
  - reflexivity.
  - unfold is_int64. lia.
  - lia.
Defined.

(** The error branch is there: a zero target timespan reaches it. *)
Example zero_timespan_divides_by_zero :
  CalculateNextWorkRequired fork_chain 1000000 mainParams 0 = DivisionByZero.
Proof. vm_compute. reflexivity. Qed.

(** *** Facts about the pieces of the calculation *)

Lemma wrap_range (x : Z) : in_range (wrap x).
Proof. unfold in_range, wrap, modulus. apply Z.mod_pos_bound. lia. Qed.

Lemma wrap_small (x : Z) : 0 <= x < 2 ^ 256 -> wrap x = x.
Proof. intro H. unfold wrap, modulus. apply Z.mod_small. exact H. Qed.

Lemma wrap_le (x : Z) : 0 <= x -> 0 <= wrap x <= x.
Proof.
  intro H. unfold wrap, modulus. split.
  - apply Z.mod_pos_bound. lia.
  - apply Z.mod_le; lia.
Qed.

Lemma mantissa_range (nCompact : Z) : 0 <= Z.land nCompact 0x007fffff < 2 ^ 23.
Proof.
  change 0x007fffff with (Z.ones 23). rewrite Z.land_ones by lia.
  apply Z.mod_pos_bound. lia.
Qed.

(** Whatever the compact value, the decoded magnitude is a 256-bit number. *)
Lemma magnitude_in_range (nCompact : Z) : in_range (magnitude (SetCompact nCompact)).
Proof.
  unfold SetCompact, magnitude. cbn [fst].
  pose proof (mantissa_range nCompact) as Hm.
  destruct (Z.leb_spec (Z.shiftr nCompact 24) 3) as [Hs | Hs].
  - rewrite Z.shiftr_div_pow2 by lia.
    assert (0 < 2 ^ (8 * (3 - Z.shiftr nCompact 24))) by (apply Z.pow_pos_nonneg; lia).
    unfold in_range, modulus. split.
    + apply Z.div_pos; lia.
    + apply Z.le_lt_trans with (Z.land nCompact 0x007fffff); [| lia].
      apply Z.div_le_upper_bound; [lia | nia].
  - apply wrap_range.
Qed.

(** The limited timespan when the fourfold target timespan fits 32 bits. *)
Lemma LimitTimespan_value (a T : Z) :
  0 < T -> T * 4 < 2 ^ 32 ->
  LimitTimespan a T = Ok (Z.min (Z.max a (T / 4)) (T * 4)).
Proof.
  intros Hpos Hfit. unfold LimitTimespan, int64_div. cbn [Z.eqb bind].
  rewrite Z.quot_div_nonneg by lia.
  assert (0 <= T / 4 <= T) by (split; [apply Z.div_pos; lia | apply Z.div_le_upper_bound; lia]).
  rewrite (to_int64_id (T / 4)) by (unfold is_int64; lia).
  rewrite (to_int64_id (T * 4)) by (unfold is_int64; lia).
  f_equal.
  destruct (Z.ltb_spec a (T / 4)); destruct (Z.gtb_spec (Z.max a (T / 4)) (T * 4));
    repeat match goal with
           | |- context [if ?c then _ else _] => destruct c eqn:?
           end; lia.
Qed.

(** The factor that reaches the multiplication never exceeds four times the
    divisor, whatever the timespans. *)
Lemma limited_factor_le (a a' T : Z) :
  is_int64 T -> T <> 0 ->
  LimitTimespan a T = Ok a' ->
  0 <= to_uint32 a' <= 4 * to_uint64 T.
Proof.
  intros HT Hnz Hlim.
  assert (Hu : 0 <= to_uint32 a' < 2 ^ 32)
    by (unfold to_uint32; apply Z.mod_pos_bound; lia).
  split; [lia |].
  destruct (Z.lt_total T 0) as [Hneg | [Hz | Hpos]]; [| contradiction |].
  - unfold is_int64 in HT. unfold to_uint64.
    replace (T mod 2 ^ 64) with (T + 2 ^ 64).
    + lia.
    + apply Z.mod_unique with (q := -1); lia.
  - rewrite to_uint64_positive by assumption.
    destruct (Z.le_gt_cases (2 ^ 32) (T * 4)) as [Hbig | Hsmall]; [lia |].
    rewrite LimitTimespan_value in Hlim by assumption.
    injection Hlim as <-.
    assert (0 <= T / 4) by (apply Z.div_pos; lia).
    rewrite to_uint32_id by (unfold is_uint32; lia). lia.
Qed.

Lemma bits_range (a : arith_uint256) : in_range a -> 0 <= bits a <= 256.
Proof.
  unfold in_range, modulus, bits. intro H.
  destruct (Z.eqb_spec a 0); [lia |].
  pose proof (Z.log2_nonneg a).
  assert (Z.log2 a < 256) by (apply Z.log2_lt_pow2; lia). lia.
Qed.

(** Line 119 in plain terms: the magnitude is halved exactly when the limit
    is nonzero and the magnitude has at least as many bits as the limit. *)
Lemma ShiftNeeded_iff (bnNew bnPowLimit : arith_uint256) :
  in_range bnNew -> in_range bnPowLimit ->
  (ShiftNeeded bnNew bnPowLimit = true
   <-> bnPowLimit <> 0 /\ bits bnPowLimit <= bits bnNew).
Proof.
  intros Hn Hl. pose proof (bits_range _ Hn) as Hbn.
  pose proof (bits_range _ Hl) as Hbl. unfold ShiftNeeded.
  destruct (Z.eqb_spec bnPowLimit 0) as [Hz | Hz].
  - subst bnPowLimit. change (to_uint32 (bits 0 - 1)) with (2 ^ 32 - 1).
    destruct (Z.gtb_spec (bits bnNew) (2 ^ 32 - 1)); [lia |].
    split; [discriminate | intros [Hf _]; contradiction].
  - assert (Hpos : 1 <= bits bnPowLimit).
    { unfold bits. destruct (Z.eqb_spec bnPowLimit 0); [contradiction |].
      pose proof (Z.log2_nonneg bnPowLimit). lia. }
    rewrite to_uint32_id by (unfold is_uint32; lia).
    destruct (Z.gtb_spec (bits bnNew) (bits bnPowLimit - 1)).
    + split; [intros _; split; [assumption | lia] | reflexivity].
    + split; [discriminate | intros [_ Hle]; lia].
Qed.

Lemma Halved_range (nBits : Z) (bnPowLimit : arith_uint256) :
  0 <= Halved nBits bnPowLimit <= magnitude (SetCompact nBits)
  /\ 2 * Halved nBits bnPowLimit
     <= (if ShiftNeeded (magnitude (SetCompact nBits)) bnPowLimit then 1 else 2)
        * magnitude (SetCompact nBits).
Proof.
  pose proof (magnitude_in_range nBits) as Hm. unfold in_range in Hm.
  unfold Halved, shr.
  destruct (ShiftNeeded (magnitude (SetCompact nBits)) bnPowLimit).
  - rewrite Z.shiftr_div_pow2 by lia. change (2 ^ 1) with 2.
    pose proof (Z.div_pos (magnitude (SetCompact nBits)) 2 ltac:(lia) ltac:(lia)).
    pose proof (Z.mul_div_le (magnitude (SetCompact nBits)) 2 ltac:(lia)). lia.
  - lia.
Qed.

(** Lines 113-128 with the wrap-around of the 256-bit type spelt out. *)
Lemma Retarget_value (nBits : Z) (bnPowLimit : arith_uint256) (a T : Z) :
  to_uint64 T <> 0 ->
  Retarget nBits bnPowLimit a T
  = Ok (if ShiftNeeded (magnitude (SetCompact nBits)) bnPowLimit
        then wrap (2 * (wrap (Halved nBits bnPowLimit * to_uint32 a) / to_uint64 T))
        else wrap (Halved nBits bnPowLimit * to_uint32 a) / to_uint64 T).
Proof.
  intro HT. unfold Retarget, Halved, div, mul32, shl.
  destruct (Z.eqb_spec (to_uint64 T) 0); [contradiction |].
  destruct (ShiftNeeded (magnitude (SetCompact nBits)) bnPowLimit); cbn [bind].
  - rewrite Z.shiftl_mul_pow2 by lia. change (2 ^ 1) with 2.
    f_equal. f_equal. lia.
  - reflexivity.
Qed.

(** When neither the product nor the restored result leaves 256 bits, the
    calculation is the plain floor division. *)
Lemma Retarget_exact (nBits : Z) (bnPowLimit : arith_uint256) (a T : Z) :
  is_int64 T -> 0 < T -> 0 <= a < 2 ^ 32 ->
  Halved nBits bnPowLimit * a < 2 ^ 256 ->
  (ShiftNeeded (magnitude (SetCompact nBits)) bnPowLimit = true ->
   2 * (Halved nBits bnPowLimit * a / T) < 2 ^ 256) ->
  Retarget nBits bnPowLimit a T
  = Ok (if ShiftNeeded (magnitude (SetCompact nBits)) bnPowLimit
        then 2 * (Halved nBits bnPowLimit * a / T)
        else Halved nBits bnPowLimit * a / T).
Proof.
  intros HT Hpos Ha Hprod Hrestore.
  pose proof (Halved_range nBits bnPowLimit) as [[Hh _] _].
  rewrite Retarget_value by (rewrite to_uint64_positive by assumption; lia).
  rewrite to_uint64_positive by assumption.
  rewrite to_uint32_id by exact Ha.
  assert (Hp : 0 <= Halved nBits bnPowLimit * a) by nia.
  rewrite (wrap_small (Halved nBits bnPowLimit * a)) by lia.
  destruct (ShiftNeeded (magnitude (SetCompact nBits)) bnPowLimit); [| reflexivity].
  assert (0 <= Halved nBits bnPowLimit * a / T) by (apply Z.div_pos; lia).
  rewrite wrap_small by (specialize (Hrestore eq_refl); lia). reflexivity.
Qed.

Lemma Retarget_fitting (nBits : Z) (bnPowLimit : arith_uint256) (a T : Z) :
  2 <= T -> T * 4 < 2 ^ 32 -> 0 <= a <= T * 4 ->
  product_fits nBits bnPowLimit T ->
  Retarget nBits bnPowLimit a T
  = Ok (if ShiftNeeded (magnitude (SetCompact nBits)) bnPowLimit
        then 2 * (Halved nBits bnPowLimit * a / T)
        else Halved nBits bnPowLimit * a / T).
Proof.
  intros HT Hfit Ha Hprod. unfold product_fits in Hprod.
  pose proof (Halved_range nBits bnPowLimit) as [[Hh _] _].
  apply Retarget_exact; try (unfold is_int64; lia).
  - nia.
  - intros _.
    assert (Halved nBits bnPowLimit * a / T <= Halved nBits bnPowLimit * 4).
    { apply Z.div_le_upper_bound; [lia | nia]. }
    nia.
Qed.

Lemma to_uint64_nonzero (T : Z) : is_int64 T -> T <> 0 -> 0 < to_uint64 T.
Proof.
  unfold is_int64, to_uint64. intros HT Hnz.
  pose proof (Z.mod_pos_bound T (2 ^ 64) ltac:(lia)).
  pose proof (Z.div_mod T (2 ^ 64) ltac:(lia)). lia.
Qed.

Lemma Halved_lower (nBits : Z) (bnPowLimit : arith_uint256) :
  magnitude (SetCompact nBits)
  <= (if ShiftNeeded (magnitude (SetCompact nBits)) bnPowLimit
      then 2 * Halved nBits bnPowLimit + 1 else Halved nBits bnPowLimit).
Proof.
  unfold Halved, shr.
  destruct (ShiftNeeded (magnitude (SetCompact nBits)) bnPowLimit); [| lia].
  rewrite Z.shiftr_div_pow2 by lia. change (2 ^ 1) with 2.
  pose proof (Z.div_mod (magnitude (SetCompact nBits)) 2 ltac:(lia)).
  pose proof (Z.mod_pos_bound (magnitude (SetCompact nBits)) 2 ltac:(lia)). lia.
Qed.

(** The rescaled magnitude is never more than four times the old one,
    wrap-around included. *)
Lemma Retarget_upper (nBits : Z) (bnPowLimit : arith_uint256) (a0 a T pre : Z) :
  is_int64 T -> T <> 0 ->
  LimitTimespan a0 T = Ok a ->
  Retarget nBits bnPowLimit a T = Ok pre ->
  pre <= 4 * magnitude (SetCompact nBits).
Proof.
  intros HT Hnz Hlim Hpre.
  pose proof (to_uint64_nonzero T HT Hnz) as HD.
  pose proof (limited_factor_le _ _ _ HT Hnz Hlim) as Hu.
  pose proof (Halved_range nBits bnPowLimit) as [[Hh Hhm] Hh2].
  rewrite Retarget_value in Hpre by lia. apply Ok_inj in Hpre. subst pre.
  set (h := Halved nBits bnPowLimit) in *.
  set (u := to_uint32 a) in *. set (D := to_uint64 T) in *.
  assert (Hq : wrap (h * u) / D <= 4 * h).
  { apply Z.div_le_upper_bound; [lia |].
    pose proof (wrap_le (h * u) ltac:(nia)). nia. }
  assert (Hq0 : 0 <= wrap (h * u) / D).
  { apply Z.div_pos; [| lia]. pose proof (wrap_range (h * u)) as Hr.
    unfold in_range in Hr. lia. }
  destruct (ShiftNeeded (magnitude (SetCompact nBits)) bnPowLimit).
  - pose proof (wrap_le (2 * (wrap (h * u) / D)) ltac:(lia)). lia.
  - lia.
Qed.

(** With a target timespan that is a multiple of four and a product that
    fits, the rescaled magnitude is a quarter of the old one or more, up to
    the bits lost by the halving and the floor division. *)
Lemma Retarget_lower (nBits : Z) (bnPowLimit : arith_uint256) (a T pre : Z) :
  0 < T -> T mod 4 = 0 -> T * 4 < 2 ^ 32 ->
  T / 4 <= a <= T * 4 ->
  product_fits nBits bnPowLimit T ->
  Retarget nBits bnPowLimit a T = Ok pre ->
  magnitude (SetCompact nBits) < 4 * pre + 8.
Proof.
  intros Hpos Hmod Hfit Ha Hprod Hpre.
  pose proof (Z.div_mod T 4 ltac:(lia)) as HT4. rewrite Hmod in HT4.
  assert (Hq : 1 <= T / 4) by lia.
  pose proof (Halved_range nBits bnPowLimit) as [[Hh _] _].
  pose proof (Halved_lower nBits bnPowLimit) as Hlow.
  rewrite Retarget_fitting in Hpre by (assumption || lia).
  apply Ok_inj in Hpre. subst pre.
  set (h := Halved nBits bnPowLimit) in *.
  assert (Hquarter : h / 4 <= h * a / T).
  { replace (h / 4) with (h * (T / 4) / T).
    - apply Z.div_le_mono; [lia | nia].
    - replace T with (4 * (T / 4)) at 2 by lia.
      apply Z.div_mul_cancel_r; lia. }
  pose proof (Z.div_mod h 4 ltac:(lia)).
  pose proof (Z.mod_pos_bound h 4 ltac:(lia)).
  destruct (ShiftNeeded (magnitude (SetCompact nBits)) bnPowLimit); lia.
Qed.

Lemma ClampToLimit_le (bnNew bnPowLimit : arith_uint256) :
  ClampToLimit bnNew bnPowLimit <= bnPowLimit.
Proof. unfold ClampToLimit. destruct (Z.gtb_spec bnNew bnPowLimit); lia. Qed.

Lemma LimitTimespan_ok (a0 T : Z) : exists a, LimitTimespan a0 T = Ok a.
Proof. unfold LimitTimespan, int64_div. cbn [Z.eqb bind]. eauto. Qed.

(** The product fits whenever the previous target respects the difficulty
    limit and the limit leaves room for the fourfold target timespan, as the
    limit of [mainParams] does: the halving of line 121 then brings the
    magnitude one bit below the limit's bit length. *)
Lemma product_fits_under_limit (nBits : Z) (bnPowLimit : arith_uint256) (T : Z) :
  in_range bnPowLimit -> 0 < T ->
  magnitude (SetCompact nBits) <= bnPowLimit ->
  2 ^ (bits bnPowLimit - 1) * (T * 4) <= 2 ^ 256 ->
  product_fits nBits bnPowLimit T.
Proof.
  intros Hl HT Hle Hroom. unfold product_fits.
  pose proof (magnitude_in_range nBits) as Hm.
  pose proof (Halved_range nBits bnPowLimit) as [[Hh Hhm] _].
  destruct (Z.eq_dec (magnitude (SetCompact nBits)) 0) as [Hz | Hz].
  - replace (Halved nBits bnPowLimit) with 0 by lia. cbn. lia.
  - unfold in_range in Hm, Hl.
    assert (Hbound : Halved nBits bnPowLimit < 2 ^ (bits bnPowLimit - 1)).
    { pose proof (ShiftNeeded_iff _ _ (magnitude_in_range nBits) Hl) as Hiff.
      unfold Halved, shr in *. unfold bits in *.
      destruct (Z.eqb_spec bnPowLimit 0) as [Hl0 | Hl0]; [lia |].
      destruct (Z.eqb_spec (magnitude (SetCompact nBits)) 0) as [Hm0 | Hm0];
        [contradiction |].
      destruct (Z.log2_spec (magnitude (SetCompact nBits)) ltac:(lia)) as [_ Hup].
      pose proof (Z.log2_le_mono _ _ Hle) as Hmono.
      pose proof (Z.log2_nonneg (magnitude (SetCompact nBits))) as Hnn.
      replace (Z.log2 bnPowLimit + 1 - 1) with (Z.log2 bnPowLimit) by lia.
      destruct (ShiftNeeded (magnitude (SetCompact nBits)) bnPowLimit).
      - rewrite Z.shiftr_div_pow2 by lia. change (2 ^ 1) with 2.
        apply Z.div_lt_upper_bound; [lia |].
        rewrite <- Z.pow_succ_r by lia.
        apply Z.lt_le_trans with (2 ^ Z.succ (Z.log2 (magnitude (SetCompact nBits))));
          [exact Hup |].
        apply Z.pow_le_mono_r; lia.
      - assert (Hlt : Z.log2 (magnitude (SetCompact nBits)) < Z.log2 bnPowLimit).
        { destruct (Z.lt_ge_cases (Z.log2 (magnitude (SetCompact nBits)))
                      (Z.log2 bnPowLimit)) as [Hok | Hbad]; [exact Hok |].
          assert (Htrue : false = true) by (apply Hiff; split; [assumption | lia]).
          discriminate. }
        apply Z.lt_le_trans with (2 ^ Z.succ (Z.log2 (magnitude (SetCompact nBits))));
          [exact Hup |].
        apply Z.pow_le_mono_r; lia. }
    apply Z.lt_le_trans with (2 ^ (bits bnPowLimit - 1) * (T * 4)); [| exact Hroom].
    apply Z.mul_lt_mono_pos_r; lia.
Qed.

(** C5, as stated, fails: under [wideLimitParams] a window that took exactly
    the target timespan leaves the limited timespan at 1209600, the product
    of the halved magnitude with it leaves 256 bits, and the rescaled
    magnitude ends far below a quarter of the old one. *)
Lemma retarget_wraps_below_quarter :
  fPowNoRetargeting wideLimitParams = false
  /\ LimitTimespan (ActualTimespan wide_block 1498790400) 1209600 = Ok 1209600
  /\ Retarget (nBits wide_block) (UintToArith256 (powLimit wideLimitParams))
       1209600 1209600
     = Ok 184553427656708436582226264324045573511288945038478694197908877905686698
  /\ magnitude (SetCompact (nBits wide_block)) = 0x7fffff * 2 ^ 232
  /\ 4 * 184553427656708436582226264324045573511288945038478694197908877905686698
     < magnitude (SetCompact (nBits wide_block)).
Proof. vm_compute. repeat split. Qed.

(** Even without wrap-around the quarter is only reached up to rounding,
    and only for a target timespan that is a multiple of four. *)
Example retarget_quarter_is_rounded :
  Retarget 0x03000005 (UintToArith256 (powLimit mainParams)) 75600 302400 = Ok 1
  /\ magnitude (SetCompact 0x03000005) = 5.
Proof. vm_compute. repeat split. Qed.

Example retarget_quarter_needs_multiple_of_four :
  LimitTimespan 0 7 = Ok 1
  /\ Retarget 0x1d00ffff (UintToArith256 (powLimit mainParams)) 1 7
     = Ok ((0xffff * 2 ^ 208) / 7).
Proof. vm_compute. repeat split. Qed.

(** C5 (amended): for every retarget with a nonzero target timespan, the
    magnitude computed before the difficulty-limit clamp is at most 4 times
    the previous target's expanded magnitude, and the magnitude after the
    clamp never exceeds the difficulty limit.  The lower bound holds up to
    rounding, [previous < 4 * new + 8], when the target timespan is a
    positive multiple of four whose fourfold fits 32 bits and the product of
    the (possibly halved) magnitude with the fourfold target timespan fits
    256 bits. *)
Theorem retarget_step_bounds (pindexLast : CBlockIndex) (nFirstBlockTime : Z)
    (params : Params) (nTargetTimespan : Z) :
  fPowNoRetargeting params = false ->
  is_int64 nTargetTimespan ->
  nTargetTimespan <> 0 ->
  exists a pre,
    LimitTimespan (ActualTimespan pindexLast nFirstBlockTime) nTargetTimespan = Ok a
    /\ Retarget (nBits pindexLast) (UintToArith256 (powLimit params)) a nTargetTimespan
       = Ok pre
    /\ CalculateNextWorkRequired pindexLast nFirstBlockTime params nTargetTimespan
       = Ok (GetCompact (ClampToLimit pre (UintToArith256 (powLimit params))))
    /\ pre <= 4 * magnitude (SetCompact (nBits pindexLast))
    /\ ClampToLimit pre (UintToArith256 (powLimit params))
       <= UintToArith256 (powLimit params)
    /\ (0 < nTargetTimespan -> nTargetTimespan mod 4 = 0 ->
        nTargetTimespan * 4 < 2 ^ 32 ->
        product_fits (nBits pindexLast) (UintToArith256 (powLimit params))
          nTargetTimespan ->
        magnitude (SetCompact (nBits pindexLast)) < 4 * pre + 8).
Proof.
  intros Hretarget HT Hnz.
  destruct (LimitTimespan_ok (ActualTimespan pindexLast nFirstBlockTime) nTargetTimespan)
    as [a Ha].
  pose proof (to_uint64_nonzero _ HT Hnz) as HD.
  pose proof (Retarget_value (nBits pindexLast) (UintToArith256 (powLimit params))
                a nTargetTimespan ltac:(lia)) as Hpre.
  eexists a, _. split; [exact Ha |]. split; [exact Hpre |].
  split; [| split; [| split]].
  - unfold CalculateNextWorkRequired, NewTarget. rewrite Hretarget, Ha. cbn [bind].
    rewrite Hpre. reflexivity.
  - eapply Retarget_upper; eassumption.
  - apply ClampToLimit_le.
  - intros Hpos Hmod Hfit Hprod.
    eapply Retarget_lower; try eassumption.
    rewrite LimitTimespan_value in Ha by assumption. apply Ok_inj in Ha.
    assert (0 <= nTargetTimespan / 4 <= nTargetTimespan)
      by (split; [apply Z.div_pos; lia | apply Z.div_le_upper_bound; lia]).
    lia.
Qed.

Lemma retarget_step_bounds_witness :
  exists a pre,
    LimitTimespan (ActualTimespan main_block 1499900000) 302400 = Ok a
    /\ Retarget (nBits main_block) (UintToArith256 (powLimit mainParams)) a 302400
       = Ok pre
    /\ CalculateNextWorkRequired main_block 1499900000 mainParams 302400
       = Ok (GetCompact (ClampToLimit pre (UintToArith256 (powLimit mainParams))))
    /\ pre <= 4 * magnitude (SetCompact (nBits main_block))
    /\ ClampToLimit pre (UintToArith256 (powLimit mainParams))
       <= UintToArith256 (powLimit mainParams)
    /\ (0 < 302400 -> 302400 mod 4 = 0 -> 302400 * 4 < 2 ^ 32 ->
        product_fits (nBits main_block) (UintToArith256 (powLimit mainParams)) 302400 ->
        magnitude (SetCompact (nBits main_block)) < 4 * pre + 8).
Proof.
  apply (retarget_step_bounds main_block 1499900000 mainParams 302400).
  - reflexivity.
  - unfold is_int64. lia.
  - lia.
Defined.

(** The side conditions of the lower bound hold for [mainParams]. *)
Example main_block_product_fits :
  product_fits (nBits main_block) (UintToArith256 (powLimit mainParams)) 302400.
Proof. unfold product_fits. vm_compute. reflexivity. Qed.

(** *** Monotonicity in the actual timespan *)

Lemma ClampToLimit_monotone (x y bnPowLimit : arith_uint256) :
  x <= y -> ClampToLimit x bnPowLimit <= ClampToLimit y bnPowLimit.
Proof.
  intro H. unfold ClampToLimit.
  destruct (Z.gtb_spec x bnPowLimit); destruct (Z.gtb_spec y bnPowLimit); lia.
Qed.

(** The magnitude after the limit clamp, when nothing wraps. *)
Lemma NewTarget_fitting (pindexLast : CBlockIndex) (nFirstBlockTime : Z)
    (params : Params) (T : Z) :
  2 <= T -> T * 4 < 2 ^ 32 ->
  product_fits (nBits pindexLast) (UintToArith256 (powLimit params)) T ->
  NewTarget pindexLast nFirstBlockTime params T
  = Ok (ClampToLimit
          (let a := Z.min (Z.max (ActualTimespan pindexLast nFirstBlockTime) (T / 4))
                      (T * 4) in
           let h := Halved (nBits pindexLast) (UintToArith256 (powLimit params)) in
           if ShiftNeeded (magnitude (SetCompact (nBits pindexLast)))
                (UintToArith256 (powLimit params))
           then 2 * (h * a / T) else h * a / T)
          (UintToArith256 (powLimit params))).
Proof.
  intros HT Hfit Hprod. unfold NewTarget.
  rewrite LimitTimespan_value by lia. cbn [bind].
  assert (0 <= T / 4 <= T)
    by (split; [apply Z.div_pos; lia | apply Z.div_le_upper_bound; lia]).
  rewrite Retarget_fitting by (assumption || lia). reflexivity.
Qed.

(** C6, as stated, fails: under [wideLimitParams] the window that took twice
    the target timespan gets a smaller new magnitude than the window that
    took exactly the target timespan, because the 256-bit product wraps. *)
Lemma longer_window_smaller_target :
  fPowNoRetargeting wideLimitParams = false
  /\ ActualTimespan wide_block 1498790400 = 1209600
  /\ ActualTimespan wide_block 1497580800 = 2419200
  /\ NewTarget wide_block 1498790400 wideLimitParams 1209600
     = Ok 184553427656708436582226264324045573511288945038478694197908877905686698
  /\ NewTarget wide_block 1497580800 wideLimitParams 1209600
     = Ok 177651681309917872794791508461768548058837836066308307642746353681887402
  /\ 177651681309917872794791508461768548058837836066308307642746353681887402
     < 184553427656708436582226264324045573511288945038478694197908877905686698.
Proof. vm_compute. repeat split. Qed.

(** C6 (amended): with the previous compact target, the last block's
    timestamp, the target timespan and the parameters fixed, a target
    timespan of at least 2 whose fourfold fits 32 bits, and the product of
    the (possibly halved) previous magnitude with the fourfold target
    timespan fitting 256 bits, the new target magnitude is non-decreasing in
    the actual timespan. *)
Theorem retarget_monotone (pindexLast : CBlockIndex) (first1 first2 : Z)
    (params : Params) (nTargetTimespan : Z) :
  2 <= nTargetTimespan ->
  nTargetTimespan * 4 < 2 ^ 32 ->
  product_fits (nBits pindexLast) (UintToArith256 (powLimit params)) nTargetTimespan ->
  ActualTimespan pindexLast first1 <= ActualTimespan pindexLast first2 ->
  exists new1 new2,
    NewTarget pindexLast first1 params nTargetTimespan = Ok new1
    /\ NewTarget pindexLast first2 params nTargetTimespan = Ok new2
    /\ new1 <= new2.
Proof.
  intros HT Hfit Hprod Hle.
  rewrite !NewTarget_fitting by assumption.
  eexists _, _. split; [reflexivity | split; [reflexivity |]].
  apply ClampToLimit_monotone. cbv zeta.
  pose proof (Halved_range (nBits pindexLast) (UintToArith256 (powLimit params)))
    as [[Hh _] _].
  set (h := Halved (nBits pindexLast) (UintToArith256 (powLimit params))) in *.
  set (a1 := Z.min (Z.max (ActualTimespan pindexLast first1) (nTargetTimespan / 4))
               (nTargetTimespan * 4)).
  set (a2 := Z.min (Z.max (ActualTimespan pindexLast first2) (nTargetTimespan / 4))
               (nTargetTimespan * 4)).
  assert (Ha : a1 <= a2) by (subst a1 a2; lia).
  assert (Hq : h * a1 / nTargetTimespan <= h * a2 / nTargetTimespan)
    by (apply Z.div_le_mono; [lia | nia]).
  destruct (ShiftNeeded (magnitude (SetCompact (nBits pindexLast)))
              (UintToArith256 (powLimit params))); lia.
Qed.

Lemma retarget_monotone_witness :
  exists new1 new2,
    NewTarget main_block 1499900000 mainParams 302400 = Ok new1
    /\ NewTarget main_block 1499600000 mainParams 302400 = Ok new2
    /\ new1 <= new2.
Proof.
  apply (retarget_monotone main_block 1499900000 1499600000 mainParams 302400).
  - lia.
  - lia.
  - unfold product_fits. vm_compute. reflexivity.
  - vm_compute. discriminate.
Defined.

(** *** The halving around the multiplication *)

(** C7, as stated, fails: a previous target of 235 bits is within one bit of
    the 236-bit difficulty limit, yet it is multiplied unshifted; the result
    is the plain quotient, which differs from the quotient taken on the
    halved magnitude and doubled. *)
Lemma no_shift_one_bit_below_limit :
  bits (magnitude (SetCompact (nBits half_limit_block))) = 235
  /\ bits (UintToArith256 (powLimit mainParams)) = 236
  /\ Z.abs (bits (magnitude (SetCompact (nBits half_limit_block)))
            - bits (UintToArith256 (powLimit mainParams))) <= 1
  /\ ShiftNeeded (magnitude (SetCompact (nBits half_limit_block)))
       (UintToArith256 (powLimit mainParams)) = false
  /\ Retarget (nBits half_limit_block) (UintToArith256 (powLimit mainParams))
       302401 302400
     = Ok (magnitude (SetCompact (nBits half_limit_block)) * 302401 / 302400)
  /\ Retarget (nBits half_limit_block) (UintToArith256 (powLimit mainParams))
       302401 302400
     <> Ok (Z.shiftl
              (Z.shiftr (magnitude (SetCompact (nBits half_limit_block))) 1
               * 302401 / 302400) 1).
Proof. vm_compute. repeat split; discriminate. Qed.

(** C7 (amended): for a difficulty limit below 2^256, the magnitude is
    right-shifted by exactly one bit before the multiply-and-divide step,
    and the result left-shifted by exactly one bit afterwards, exactly when
    its bit length is greater than the difficulty limit's bit length minus
    one (for a nonzero limit: at least the limit's bit length); no shift is
    applied otherwise.  When moreover the target timespan is positive, the
    limited actual timespan lies in [0, 2^32), and the product and the
    restored result fit 256 bits, the result before the limit clamp is
    [floor (m * a / T)] without the shift and
    [2 * floor (floor (m / 2) * a / T)] with it. *)
Theorem retarget_shift_rule (nBits : Z) (bnPowLimit : arith_uint256) (a T : Z) :
  in_range bnPowLimit ->
  (ShiftNeeded (magnitude (SetCompact nBits)) bnPowLimit = true
   <-> bnPowLimit <> 0 /\ bits bnPowLimit <= bits (magnitude (SetCompact nBits)))
  /\ (to_uint64 T <> 0 ->
      Retarget nBits bnPowLimit a T
      = Ok (if ShiftNeeded (magnitude (SetCompact nBits)) bnPowLimit
            then shl (mul32 (shr (magnitude (SetCompact nBits)) 1) a / to_uint64 T) 1
            else mul32 (magnitude (SetCompact nBits)) a / to_uint64 T))
  /\ (is_int64 T -> 0 < T ->
      0 <= a < 2 ^ 32 ->
      Halved nBits bnPowLimit * a < 2 ^ 256 ->
      (ShiftNeeded (magnitude (SetCompact nBits)) bnPowLimit = true ->
       2 * (Halved nBits bnPowLimit * a / T) < 2 ^ 256) ->
      Retarget nBits bnPowLimit a T
      = Ok (if ShiftNeeded (magnitude (SetCompact nBits)) bnPowLimit
            then 2 * (magnitude (SetCompact nBits) / 2 * a / T)
            else magnitude (SetCompact nBits) * a / T)).
Proof.
  intro Hl. split; [| split].
  - apply ShiftNeeded_iff; [apply magnitude_in_range | assumption].
  - intro HT. unfold Retarget, div.
    destruct (Z.eqb_spec (to_uint64 T) 0); [contradiction |].
    destruct (ShiftNeeded (magnitude (SetCompact nBits)) bnPowLimit); reflexivity.
  - intros HT Hpos Ha Hprod Hrestore.
    rewrite Retarget_exact by assumption. unfold Halved, shr.
    destruct (ShiftNeeded (magnitude (SetCompact nBits)) bnPowLimit); [| reflexivity].
    rewrite Z.shiftr_div_pow2 by lia. reflexivity.
Qed.

Lemma retarget_shift_rule_witness :
  (ShiftNeeded (magnitude (SetCompact 0x1e0fffff)) (2 ^ 236 - 1) = true
   <-> 2 ^ 236 - 1 <> 0
       /\ bits (2 ^ 236 - 1) <= bits (magnitude (SetCompact 0x1e0fffff)))
  /\ Retarget 0x1e0fffff (2 ^ 236 - 1) 400000 302400
     = Ok (shl (mul32 (shr (magnitude (SetCompact 0x1e0fffff)) 1) 400000
                / to_uint64 302400) 1)
  /\ Retarget 0x1e0fffff (2 ^ 236 - 1) 400000 302400
     = Ok (2 * (magnitude (SetCompact 0x1e0fffff) / 2 * 400000 / 302400)).
Proof.
  destruct (retarget_shift_rule 0x1e0fffff (2 ^ 236 - 1) 400000 302400)
    as (Hrule & Hwrap & Hfloor); [unfold in_range, modulus; lia |].
  split; [exact Hrule | split].
  - rewrite Hwrap by (vm_compute; discriminate). reflexivity.
  - rewrite Hfloor.
    + reflexivity.
    + unfold is_int64. lia.
    + lia.
    + lia.
    + vm_compute. reflexivity.
    + intros _. vm_compute. reflexivity.
Defined.

Example shift_applied_at_limit :
  ShiftNeeded (magnitude (SetCompact 0x1e0fffff)) (2 ^ 236 - 1) = true
  /\ ShiftNeeded (magnitude (SetCompact 0x1e07ffff)) (2 ^ 236 - 1) = false
  /\ ShiftNeeded (magnitude (SetCompact 0x1f00ffff)) (2 ^ 236 - 1) = true.
Proof. vm_compute. repeat split. Qed.

(** ** The compact-target codec *)

(** *** The fields of a compact value *)

Lemma sign_bit_test (x : Z) :
  (Z.land x 0x00800000 =? 0) = negb (Z.testbit x 23).
Proof.
  change 0x00800000 with (2 ^ 23).
  destruct (Z.testbit x 23) eqn:E; cbn [negb].
  - apply Z.eqb_neq. intro H0.
    assert (Hb : Z.testbit (Z.land x (2 ^ 23)) 23 = true)
      by (rewrite Z.land_spec, E, Z.pow2_bits_true by lia; reflexivity).
    rewrite H0, Z.bits_0 in Hb. discriminate.
  - apply Z.eqb_eq. apply Z.bits_inj_0. intro n.
    rewrite Z.land_spec.
    destruct (Z.eq_dec n 23) as [-> | Hn].
    + rewrite E. reflexivity.
    + rewrite (Z.pow2_bits_false 23 n) by lia. apply andb_false_r.
Qed.

Lemma sign_bit_of_packed (c s : Z) :
  0 <= c < 2 ^ 23 -> Z.testbit (c + s * 2 ^ 24) 23 = false.
Proof.
  intro Hc. apply Z.testbit_false; [lia |].
  replace (c + s * 2 ^ 24) with (c + (2 * s) * 2 ^ 23) by lia.
  rewrite Z.div_add by lia. rewrite Z.div_small by lia.
  rewrite Z.add_0_l, Z.mul_comm. apply Z.mod_mul. lia.
Qed.

Lemma sign_bit_of_mantissa (c : Z) :
  0 <= c < 2 ^ 24 -> Z.testbit c 23 = negb (c <? 2 ^ 23).
Proof.
  intro Hc. destruct (Z.ltb_spec c (2 ^ 23)); cbn [negb].
  - apply Z.testbit_false; [lia |]. rewrite Z.div_small by lia. reflexivity.
  - apply Z.testbit_true; [lia |].
    replace (c / 2 ^ 23) with 1; [reflexivity |].
    apply Z.div_unique with (r := c - 2 ^ 23); lia.
Qed.

(** Putting the exponent above a 24-bit mantissa is an addition. *)
Lemma pack_fields (c s : Z) :
  0 <= c < 2 ^ 24 -> 0 <= s < 256 ->
  Z.lor c (to_uint32 (Z.shiftl s 24)) = c + s * 2 ^ 24.
Proof.
  intros Hc Hs. rewrite Z.shiftl_mul_pow2 by lia.
  rewrite to_uint32_id by (unfold is_uint32; lia).
  assert (Hdisjoint : Z.land c (s * 2 ^ 24) = 0).
  { apply Z.bits_inj_0. intro n. rewrite Z.land_spec.
    destruct (Z.lt_ge_cases n 0) as [Hn | Hn];
      [rewrite (Z.testbit_neg_r c) by lia; reflexivity |].
    destruct (Z.lt_ge_cases n 24) as [Hlow | Hhigh].
    - rewrite Z.mul_pow2_bits_low by lia. apply andb_false_r.
    - rewrite <- (Z.mod_small c (2 ^ 24)) by lia.
      rewrite Z.mod_pow2_bits_high by lia. reflexivity. }
  rewrite <- Z.lxor_lor by exact Hdisjoint.
  symmetry. apply Z.add_nocarry_lxor. exact Hdisjoint.
Qed.

Lemma unpack_size (c s : Z) :
  0 <= c < 2 ^ 24 -> Z.shiftr (c + s * 2 ^ 24) 24 = s.
Proof.
  intro Hc. rewrite Z.shiftr_div_pow2 by lia.
  rewrite Z.div_add by lia. rewrite Z.div_small by lia. lia.
Qed.

Lemma unpack_word (c s : Z) :
  0 <= c < 2 ^ 23 -> Z.land (c + s * 2 ^ 24) 0x007fffff = c.
Proof.
  intro Hc. change 0x007fffff with (Z.ones 23). rewrite Z.land_ones by lia.
  replace (c + s * 2 ^ 24) with (c + (2 * s) * 2 ^ 23) by lia.
  rewrite Z.mod_add by lia. apply Z.mod_small. lia.
Qed.

(** *** Powers of 256 *)

Lemma pow2_pos (n : Z) : 0 <= n -> 0 < 2 ^ n.
Proof. intro H. apply Z.pow_pos_nonneg; lia. Qed.

Lemma pow2_split (a b : Z) : 0 <= a -> 0 <= b -> 2 ^ (a + b) = 2 ^ a * 2 ^ b.
Proof. intros. apply Z.pow_add_r; assumption. Qed.

Lemma pow2_lt_exponent (a b : Z) : 0 <= b -> 2 ^ a < 2 ^ b -> a < b.
Proof. intros Hb H. apply (Z.pow_lt_mono_r_iff 2); [lia | assumption | exact H]. Qed.

(** The byte length used by the encoder. *)
Lemma byte_length_spec (a : arith_uint256) :
  0 < a < 2 ^ 256 ->
  1 <= (bits a + 7) / 8 <= 32
  /\ 2 ^ (8 * ((bits a + 7) / 8 - 1)) <= a < 2 ^ (8 * ((bits a + 7) / 8)).
Proof.
  intro Ha. unfold bits. destruct (Z.eqb_spec a 0) as [Hz | Hz]; [lia |].
  pose proof (Z.log2_nonneg a) as HL.
  destruct (Z.log2_spec a ltac:(lia)) as [Hlow Hhigh].
  assert (HL256 : Z.log2 a < 256) by (apply Z.log2_lt_pow2; lia).
  set (L := Z.log2 a) in *.
  pose proof (Z.div_mod (L + 1 + 7) 8 ltac:(lia)) as Hdm.
  pose proof (Z.mod_pos_bound (L + 1 + 7) 8 ltac:(lia)) as Hmb.
  set (n := (L + 1 + 7) / 8) in *.
  split; [lia |]. split.
  - apply Z.le_trans with (2 ^ L); [| exact Hlow].
    apply Z.pow_le_mono_r; lia.
  - apply Z.lt_le_trans with (2 ^ Z.succ L); [exact Hhigh |].
    apply Z.pow_le_mono_r; lia.
Qed.

(** *** The encoder in arithmetic terms *)

Lemma top_bytes_range (a : arith_uint256) :
  0 < a < 2 ^ 256 ->
  2 ^ 16 <= top_bytes a ((bits a + 7) / 8) < 2 ^ 24.
Proof.
  intro Ha. destruct (byte_length_spec a Ha) as [Hn [Hlow Hhigh]].
  set (n := (bits a + 7) / 8) in *. unfold top_bytes.
  destruct (Z.leb_spec n 3) as [Hs | Hs].
  - pose proof (pow2_pos (8 * (3 - n)) ltac:(lia)) as HP.
    assert (E16 : 2 ^ 16 = 2 ^ (8 * (n - 1)) * 2 ^ (8 * (3 - n)))
      by (rewrite <- pow2_split by lia; f_equal; lia).
    assert (E24 : 2 ^ 24 = 2 ^ (8 * n) * 2 ^ (8 * (3 - n)))
      by (rewrite <- pow2_split by lia; f_equal; lia).
    rewrite E16, E24. split.
    + apply Z.mul_le_mono_nonneg_r; lia.
    + apply Z.mul_lt_mono_pos_r; lia.
  - pose proof (pow2_pos (8 * (n - 3)) ltac:(lia)) as HP.
    assert (Elow : 2 ^ (8 * (n - 1)) = 2 ^ 16 * 2 ^ (8 * (n - 3)))
      by (rewrite <- pow2_split by lia; f_equal; lia).
    assert (Ehigh : 2 ^ (8 * n) = 2 ^ 24 * 2 ^ (8 * (n - 3)))
      by (rewrite <- pow2_split by lia; f_equal; lia).
    split.
    + apply Z.div_le_lower_bound; [lia |]. lia.
    + apply Z.div_lt_upper_bound; [lia |]. lia.
Qed.

Lemma GetCompact_value (a : arith_uint256) :
  0 < a < 2 ^ 256 ->
  GetCompact a
  = (let n := (bits a + 7) / 8 in
     let c := top_bytes a n in
     if c <? 2 ^ 23 then c + n * 2 ^ 24 else c / 2 ^ 8 + (n + 1) * 2 ^ 24).
Proof.
  intro Ha. destruct (byte_length_spec a Ha) as [Hn [Hlow Hhigh]].
  pose proof (top_bytes_range a Ha) as Hc.
  unfold GetCompact. cbv zeta.
  set (n := (bits a + 7) / 8) in *.
  assert (Hraw : (if n <=? 3
                  then to_uint32 (Z.shiftl (to_uint64 a) (8 * (3 - n)))
                  else to_uint32 (to_uint64 (shr a (8 * (n - 3)))))
                 = top_bytes a n).
  { unfold top_bytes in *. destruct (Z.leb_spec n 3) as [Hs | Hs].
    - assert (a < 2 ^ 24).
      { apply Z.lt_le_trans with (2 ^ (8 * n)); [exact Hhigh |].
        apply Z.pow_le_mono_r; lia. }
      unfold to_uint64. rewrite (Z.mod_small a) by lia.
      rewrite Z.shiftl_mul_pow2 by lia.
      apply to_uint32_id. unfold is_uint32. lia.
    - unfold shr. rewrite Z.shiftr_div_pow2 by lia.
      unfold to_uint64. rewrite Z.mod_small by lia.
      apply to_uint32_id. unfold is_uint32. lia. }
  rewrite Hraw. set (c := top_bytes a n) in *.
  rewrite sign_bit_test, sign_bit_of_mantissa by lia.
  rewrite !negb_involutive.
  destruct (Z.ltb_spec c (2 ^ 23)) as [Hlt | Hge].
  - apply pack_fields; lia.
  - rewrite Z.shiftr_div_pow2 by lia.
    assert (0 <= c / 2 ^ 8 < 2 ^ 16).
    { split; [apply Z.div_pos; lia | apply Z.div_lt_upper_bound; lia]. }
    apply pack_fields; lia.
Qed.

(** *** The decoder on a packed value *)

Lemma SetCompact_packed (w s : Z) :
  0 <= w < 2 ^ 23 -> 0 <= s <= 33 -> (s = 33 -> w < 2 ^ 16) ->
  SetCompact (w + s * 2 ^ 24)
  = (if s <=? 3 then w / 2 ^ (8 * (3 - s)) else wrap (w * 2 ^ (8 * (s - 3))),
     false, false).
Proof.
  intros Hw Hs H33. unfold SetCompact.
  rewrite unpack_size by lia. rewrite unpack_word by lia.
  rewrite sign_bit_test, sign_bit_of_packed by lia. cbn [negb].
  rewrite andb_false_r.
  destruct (Z.leb_spec s 3) as [Hsmall | Hbig].
  - rewrite Z.shiftr_div_pow2 by lia.
    destruct (Z.gtb_spec s 34); [lia |].
    destruct (Z.gtb_spec s 33); [lia |].
    destruct (Z.gtb_spec s 32); [lia |].
    rewrite ?andb_false_r; cbn [orb andb]; rewrite ?andb_false_r. reflexivity.
  - unfold shl. rewrite Z.shiftl_mul_pow2 by lia.
    destruct (Z.gtb_spec s 34); [lia |].
    destruct (Z.gtb_spec s 33); [lia |].
    destruct (Z.gtb_spec s 32) as [H32 | H32].
    + destruct (Z.gtb_spec w 0xffff); [lia |].
      rewrite ?andb_false_r; cbn [orb andb]; rewrite ?andb_false_r. reflexivity.
    + rewrite ?andb_false_r; cbn [orb andb]; rewrite ?andb_false_r. reflexivity.
Qed.

(** *** Round trip *)

Lemma expressible_exponent (mantissa k t : Z) :
  0 <= mantissa < 2 ^ 23 -> 0 <= k ->
  2 ^ t <= mantissa * 2 ^ (8 * k) -> t < 23 + 8 * k.
Proof.
  intros Hm Hk Ht. apply pow2_lt_exponent; [lia |].
  rewrite pow2_split by lia.
  pose proof (pow2_pos (8 * k) ltac:(lia)).
  apply Z.le_lt_trans with (mantissa * 2 ^ (8 * k)); [exact Ht |].
  apply Z.mul_lt_mono_pos_r; lia.
Qed.

Lemma expressible_multiple (mantissa k j : Z) :
  0 <= j <= k ->
  mantissa * 2 ^ (8 * k) / 2 ^ (8 * j) * 2 ^ (8 * j) = mantissa * 2 ^ (8 * k).
Proof.
  intro Hj. pose proof (pow2_pos (8 * j) ltac:(lia)).
  replace (8 * k) with (8 * (k - j) + 8 * j) by lia.
  rewrite pow2_split by lia. rewrite Z.mul_assoc.
  rewrite Z.div_mul by lia. reflexivity.
Qed.

Lemma top_bytes_high (a n : Z) : 3 <= n -> top_bytes a n = a / 2 ^ (8 * (n - 3)).
Proof.
  intro Hn. unfold top_bytes. destruct (Z.leb_spec n 3); [| reflexivity].
  replace n with 3 by lia. cbn. rewrite Z.div_1_r. lia.
Qed.

(** Decoding an encoded expressible magnitude, case by case on the byte
    length and on whether the top three bytes would set the sign bit. *)
Lemma SetCompact_GetCompact (m : arith_uint256) :
  expressible m ->
  SetCompact (GetCompact m) = (m, false, false).
Proof.
  intros (mantissa & k & Hmant & Hk & Hm & Hlt).
  pose proof (pow2_pos (8 * k) ltac:(lia)) as HQ.
  destruct (Z.eq_dec m 0) as [Hz | Hz]; [rewrite Hz; vm_compute; reflexivity |].
  assert (Ha : 0 < m < 2 ^ 256) by nia.
  rewrite GetCompact_value by exact Ha. cbv zeta.
  destruct (byte_length_spec m Ha) as [Hn [Hlow Hhigh]].
  pose proof (top_bytes_range m Ha) as Hc.
  set (n := (bits m + 7) / 8) in *. clearbody n.
  assert (Hnk : n <= k + 3).
  { rewrite Hm in Hlow.
    pose proof (expressible_exponent mantissa k (8 * (n - 1)) Hmant Hk Hlow). lia. }
  destruct (Z.ltb_spec (top_bytes m n) (2 ^ 23)) as [Hlt23 | Hge23].
  - rewrite SetCompact_packed by lia.
    apply (f_equal (fun v : Z => (v, false, false))).
    unfold top_bytes. destruct (Z.leb_spec n 3) as [Hs | Hs].
    + apply Z.div_mul. pose proof (pow2_pos (8 * (3 - n)) ltac:(lia)). lia.
    + rewrite Hm. rewrite expressible_multiple by lia.
      apply wrap_small. lia.
  - assert (Hw : 0 <= top_bytes m n / 2 ^ 8 < 2 ^ 16).
    { split; [apply Z.div_pos; lia | apply Z.div_lt_upper_bound; lia]. }
    rewrite SetCompact_packed by lia.
    apply (f_equal (fun v : Z => (v, false, false))).
    destruct (Z.leb_spec (n + 1) 3) as [Hs | Hs].
    + unfold top_bytes. destruct (Z.leb_spec n 3); [| lia].
      assert (Hcases : n = 1 \/ n = 2) by lia.
      destruct Hcases as [-> | ->].
      * change (8 * (3 - 1)) with (8 + 8). change (8 * (3 - (1 + 1))) with 8.
        rewrite pow2_split, Z.mul_assoc by lia.
        rewrite !Z.div_mul by lia. reflexivity.
      * change (8 * (3 - 2)) with 8. change (8 * (3 - (2 + 1))) with 0.
        rewrite Z.div_mul by lia. apply Z.div_1_r.
    + rewrite top_bytes_high in * by lia.
      pose proof (pow2_pos (8 * (n - 3)) ltac:(lia)) as HP.
      assert (Hbig : 2 ^ (23 + 8 * (n - 3)) <= mantissa * 2 ^ (8 * k)).
      { rewrite pow2_split by lia. rewrite <- Hm.
        pose proof (Z.mul_div_le m (2 ^ (8 * (n - 3))) HP). nia. }
      pose proof (expressible_exponent mantissa k _ Hmant Hk Hbig) as Hexp.
      rewrite Z.div_div by lia.
      replace (2 ^ (8 * (n - 3)) * 2 ^ 8) with (2 ^ (8 * (n + 1 - 3)))
        by (rewrite <- pow2_split by lia; f_equal; lia).
      rewrite Hm. rewrite expressible_multiple by lia.
      apply wrap_small. lia.
Qed.

(** C9: for every 256-bit magnitude that is exactly expressible in the
    compact form (a mantissa below 2^23, so with the sign bit clear,
    followed by whole zero bytes), decoding its compact encoding yields the
    magnitude again, with the negative and overflow flags clear. *)
Theorem compact_round_trip (m : arith_uint256) :
  expressible m ->
  magnitude (SetCompact (GetCompact m)) = m
  /\ negative (SetCompact (GetCompact m)) = false
  /\ overflow (SetCompact (GetCompact m)) = false.
Proof.
  intro Hm. rewrite (SetCompact_GetCompact m Hm). repeat split.
Qed.

Lemma compact_round_trip_witness :
  magnitude (SetCompact (GetCompact (0x00ffff * 2 ^ 208))) = 0x00ffff * 2 ^ 208
  /\ negative (SetCompact (GetCompact (0x00ffff * 2 ^ 208))) = false
  /\ overflow (SetCompact (GetCompact (0x00ffff * 2 ^ 208))) = false.
Proof.
  apply (compact_round_trip (0x00ffff * 2 ^ 208)).
  exists 0x00ffff, 26. repeat split; try lia; vm_compute; reflexivity.
Defined.

(** The encoder is lossy outside the expressible magnitudes. *)
Example compact_encoding_truncates :
  magnitude (SetCompact (GetCompact (2 ^ 236 - 1))) = 0x0fffff * 2 ^ 216.
Proof. vm_compute. reflexivity. Qed.

(** Every magnitude the decoder yields without overflow is expressible, so
    decoding, encoding and decoding again changes nothing. *)
Lemma decoded_expressible (nCompact : Z) :
  0 <= nCompact < 2 ^ 32 ->
  overflow (SetCompact nCompact) = false ->
  expressible (magnitude (SetCompact nCompact)).
Proof.
  intros Hc. unfold SetCompact, overflow, magnitude. cbn [fst snd].
  pose proof (mantissa_range nCompact) as Hw.
  assert (Hs : 0 <= Z.shiftr nCompact 24).
  { rewrite Z.shiftr_div_pow2 by lia. apply Z.div_pos; lia. }
  set (s := Z.shiftr nCompact 24) in *. set (w := Z.land nCompact 0x007fffff) in *.
  destruct (Z.leb_spec s 3) as [Hsmall | Hbig]; intro Hov.
  - pose proof (pow2_pos (8 * (3 - s)) ltac:(lia)) as HP.
    rewrite Z.shiftr_div_pow2 by lia.
    assert (0 <= w / 2 ^ (8 * (3 - s)) <= w).
    { split; [apply Z.div_pos; lia | apply Z.div_le_upper_bound; [lia | nia]]. }
    exists (w / 2 ^ (8 * (3 - s))), 0.
    change (2 ^ (8 * 0)) with 1. repeat split; lia.
  - unfold shl. rewrite Z.shiftl_mul_pow2 by lia.
    destruct (Z.eqb_spec w 0) as [Hw0 | Hw0].
    + rewrite Hw0, Z.mul_0_l. exists 0, 0. vm_compute. repeat split; discriminate.
    + cbn [negb andb] in Hov.
      apply orb_false_iff in Hov. destruct Hov as [Hov H32].
      apply orb_false_iff in Hov. destruct Hov as [H34 H33].
      destruct (Z.gtb_spec s 34); [discriminate |].
      assert (Hfit : w * 2 ^ (8 * (s - 3)) < 2 ^ 256).
      { destruct (Z.gtb_spec s 32) as [Hs32 | Hs32].
        - rewrite andb_true_r in H32.
          destruct (Z.gtb_spec w 0xffff); [discriminate |].
          destruct (Z.gtb_spec s 33) as [Hs33 | Hs33].
          + rewrite andb_true_r in H33.
            destruct (Z.gtb_spec w 0xff); [discriminate |].
            replace s with 34 by lia. cbn. lia.
          + replace s with 33 by lia. cbn. lia.
        - assert (2 ^ (8 * (s - 3)) <= 2 ^ 232) by (apply Z.pow_le_mono_r; lia).
          pose proof (pow2_pos (8 * (s - 3)) ltac:(lia)).
          apply Z.lt_le_trans with (2 ^ 23 * 2 ^ 232); [| cbn; lia].
          apply Z.le_lt_trans with (w * 2 ^ 232); [| lia].
          apply Z.mul_le_mono_nonneg_l; lia. }
      pose proof (pow2_pos (8 * (s - 3)) ltac:(lia)).
      rewrite wrap_small by nia.
      exists w, (s - 3). repeat split; lia.
Qed.

Lemma decode_encode_decode (nCompact : Z) :
  0 <= nCompact < 2 ^ 32 ->
  overflow (SetCompact nCompact) = false ->
  SetCompact (GetCompact (magnitude (SetCompact nCompact)))
  = (magnitude (SetCompact nCompact), false, false).
Proof.
  intros Hc Hov. apply SetCompact_GetCompact. apply decoded_expressible; assumption.
Qed.

(** * Further properties of the code *)

(** ** The paths of GetNextWorkRequired *)

(** Lines 41-69 when the next height is no retarget boundary. *)
Lemma NextWorkUnder_off_boundary (interval T : Z) (pindexLast : CBlockIndex)
    (pblock : CBlockHeader) (params : Params) :
  0 <= nHeight pindexLast < 2 ^ 31 - 1 ->
  interval <> 0 ->
  Z.rem (nHeight pindexLast + 1) interval <> 0 ->
  NextWorkUnder interval T pindexLast pblock params
  = if fPowAllowMinDifficultyBlocks params then
      if GetHeaderTime pblock >?
         to_int64 (GetBlockTime pindexLast + to_int64 (nPowTargetSpacing params * 2))
      then Ok (GetCompact (UintToArith256 (powLimit params)))
      else Ok (nBits (MinDifficultyWalk interval
                        (GetCompact (UintToArith256 (powLimit params))) pindexLast))
    else Ok (nBits pindexLast).
Proof.
  intros Hh Hi Hrem. unfold NextWorkUnder.
  rewrite boundary_test by assumption. cbn [bind].
  destruct (Z.eqb_spec (Z.rem (nHeight pindexLast + 1) interval) 0); [contradiction |].
  reflexivity.
Qed.

(** Lines 75-88 when the next height is a retarget boundary. *)
Lemma NextWorkUnder_on_boundary (interval T : Z) (pindexLast : CBlockIndex)
    (pblock : CBlockHeader) (params : Params) :
  0 <= nHeight pindexLast < 2 ^ 31 - 1 ->
  interval <> 0 ->
  Z.rem (nHeight pindexLast + 1) interval = 0 ->
  NextWorkUnder interval T pindexLast pblock params
  = match GoBack pindexLast 0 (BlocksToGoBack (nHeight pindexLast) interval) with
    | None => AssertionFailed
    | Some pindexFirst =>
        CalculateNextWorkRequired pindexLast (GetBlockTime pindexFirst) params T
    end.
Proof.
  intros Hh Hi Hrem. unfold NextWorkUnder.
  rewrite boundary_test by assumption. cbn [bind].
  rewrite Hrem. reflexivity.
Qed.

(** The loop of lines 81-83 ends on the ancestor [blockstogoback - i] links
    below its start, or on the null pointer when there is none. *)
Lemma GoBack_nth (pindex : CBlockIndex) :
  forall i blockstogoback,
    GoBack pindex i blockstogoback
    = nth_error (ancestors pindex) (Z.to_nat (blockstogoback - i)).
Proof.
  induction pindex as [h t b | parent h t b IH] using chain_ind; intros i n.
  - cbn [GoBack pprev ancestors]. destruct (Z.ltb_spec i n).
    + replace (Z.to_nat (n - i)) with (S (Z.to_nat (n - i - 1))) by lia.
      cbn. destruct (Z.to_nat (n - i - 1)); reflexivity.
    + replace (Z.to_nat (n - i)) with O by lia. reflexivity.
  - cbn [GoBack pprev ancestors]. destruct (Z.ltb_spec i n).
    + replace (Z.to_nat (n - i)) with (S (Z.to_nat (n - (i + 1)))) by lia.
      cbn [nth_error]. apply IH.
    + replace (Z.to_nat (n - i)) with O by lia. reflexivity.
Qed.

Lemma ancestors_length (pindex : CBlockIndex) :
  length (ancestors pindex) = S (depth pindex).
Proof.
  induction pindex as [h t b | parent h t b IH] using chain_ind.
  - reflexivity.
  - cbn [ancestors depth pprev length]. rewrite IH. reflexivity.
Qed.

(** On a well-formed chain the [n]-th ancestor sits [n] below. *)
Lemma ancestor_height (pindex : CBlockIndex) :
  well_formed pindex = true ->
  forall n b, nth_error (ancestors pindex) n = Some b ->
    nHeight b = nHeight pindex - Z.of_nat n /\ well_formed b = true.
Proof.
  induction pindex as [h t b0 | parent h t b0 IH] using chain_ind; intros Hwf n b Hn.
  - destruct n as [| n]; cbn in Hn.
    + injection Hn as <-. split; [lia | exact Hwf].
    + destruct n; discriminate.
  - destruct n as [| n].
    + cbn in Hn. injection Hn as <-. split; [lia | exact Hwf].
    + cbn [ancestors pprev nth_error] in Hn.
      pose proof (well_formed_height _ Hwf) as Hh. cbn [nHeight depth pprev] in Hh.
      cbn [well_formed pprev] in Hwf. apply andb_true_iff in Hwf.
      destruct Hwf as [_ Hwfp].
      pose proof (well_formed_height _ Hwfp) as Hhp.
      destruct (IH Hwfp n b Hn) as [Hb Hwfb].
      split; [cbn [nHeight]; lia | exact Hwfb].
Qed.

(** X1: off a retarget boundary and with the minimum-difficulty rule off,
    the next block inherits the last block's bits. *)
Theorem no_retarget_keeps_bits (pindexLast : CBlockIndex)
    (pblock : CBlockHeader) (params : Params) :
  fPowAllowMinDifficultyBlocks params = false ->
  0 <= nHeight pindexLast < 2 ^ 31 - 1 ->
  fst (ActiveRegime params pindexLast) <> 0 ->
  Z.rem (nHeight pindexLast + 1) (fst (ActiveRegime params pindexLast)) <> 0 ->
  GetNextWorkRequired (Some pindexLast) pblock params = Ok (nBits pindexLast).
Proof.
  intros Hallow Hh Hi Hrem. unfold GetNextWorkRequired.
  destruct (ActiveRegime params pindexLast) as [interval T]. cbn [fst] in *.
  rewrite NextWorkUnder_off_boundary by assumption.
  rewrite Hallow. reflexivity.
Qed.

Lemma no_retarget_keeps_bits_witness :
  GetNextWorkRequired (Some fork_chain) (BlockHeader 1007200) mainParams
  = Ok (nBits fork_chain).
Proof.
  apply (no_retarget_keeps_bits fork_chain (BlockHeader 1007200) mainParams).
  - reflexivity.
  - split; vm_compute; [discriminate | reflexivity].
  - vm_compute. discriminate.
  - vm_compute. discriminate.
Defined.

(** X2: with the minimum-difficulty rule off, the candidate block is never
    consulted: the required work is the same for every candidate. *)
Theorem candidate_ignored_without_min_difficulty (pindexLast : option CBlockIndex)
    (pblock pblock' : CBlockHeader) (params : Params) :
  fPowAllowMinDifficultyBlocks params = false ->
  GetNextWorkRequired pindexLast pblock params
  = GetNextWorkRequired pindexLast pblock' params.
Proof.
  intro Hallow. destruct pindexLast as [pindexLast |]; [| reflexivity].
  unfold GetNextWorkRequired.
  destruct (ActiveRegime params pindexLast) as [interval T].
  unfold NextWorkUnder. rewrite Hallow. reflexivity.
Qed.

Lemma candidate_ignored_without_min_difficulty_witness :
  GetNextWorkRequired (Some fork_chain) (BlockHeader 1007200) mainParams
  = GetNextWorkRequired (Some fork_chain) (BlockHeader 2000000000) mainParams.
Proof.
  apply (candidate_ignored_without_min_difficulty (Some fork_chain)
           (BlockHeader 1007200) (BlockHeader 2000000000) mainParams).
  reflexivity.
Defined.

(** X3: with retargeting switched off, a retarget boundary on a well-formed
    chain leaves the bits as they are. *)
Theorem no_retargeting_keeps_bits (pindexLast : CBlockIndex)
    (pblock : CBlockHeader) (params : Params) :
  fPowNoRetargeting params = true ->
  well_formed pindexLast = true ->
  nHeight pindexLast < 2 ^ 31 - 1 ->
  fst (ActiveRegime params pindexLast) <> 0 ->
  Z.rem (nHeight pindexLast + 1) (fst (ActiveRegime params pindexLast)) = 0 ->
  GetNextWorkRequired (Some pindexLast) pblock params = Ok (nBits pindexLast).
Proof.
  intros Hno Hwf Hh Hi Hrem. unfold GetNextWorkRequired.
  destruct (ActiveRegime params pindexLast) as [interval T]. cbn [fst] in *.
  pose proof (well_formed_height _ Hwf) as Hd.
  rewrite NextWorkUnder_on_boundary by (assumption || lia).
  destruct (NextWorkUnder_window_exists interval T pindexLast pblock params
              Hwf Hh Hi Hrem) as [[pindexFirst ->] _].
  unfold CalculateNextWorkRequired. rewrite Hno. reflexivity.
Qed.

Lemma no_retargeting_keeps_bits_witness :
  GetNextWorkRequired (Some fork_chain) (BlockHeader 1007200) noRetargetParams
  = Ok (nBits fork_chain).
Proof.
  apply (no_retargeting_keeps_bits fork_chain (BlockHeader 1007200) noRetargetParams).
  - reflexivity.
  - vm_compute. reflexivity.
  - vm_compute. reflexivity.
  - vm_compute. discriminate.
  - vm_compute. reflexivity.
Defined.

Lemma CalculateNextWorkRequired_ok (pindexLast : CBlockIndex)
    (nFirstBlockTime : Z) (params : Params) (T : Z) :
  is_int64 T -> T <> 0 ->
  exists nBitsNew,
    CalculateNextWorkRequired pindexLast nFirstBlockTime params T = Ok nBitsNew.
Proof.
  intros HT Hnz. unfold CalculateNextWorkRequired, NewTarget.
  destruct (fPowNoRetargeting params); [eauto |].
  destruct (LimitTimespan_ok (ActualTimespan pindexLast nFirstBlockTime) T) as [a ->].
  cbn [bind]. pose proof (to_uint64_nonzero T HT Hnz).
  rewrite Retarget_value by lia. cbn [bind]. eauto.
Qed.

(** X4: on a well-formed chain, with a nonzero adjustment interval and a
    nonzero target timespan in force, GetNextWorkRequired returns a compact
    target: neither the assertion nor a division by zero is reached. *)
Theorem GetNextWorkRequired_returns (pindexLast : CBlockIndex)
    (pblock : CBlockHeader) (params : Params) :
  well_formed pindexLast = true ->
  nHeight pindexLast < 2 ^ 31 - 1 ->
  fst (ActiveRegime params pindexLast) <> 0 ->
  is_int64 (snd (ActiveRegime params pindexLast)) ->
  snd (ActiveRegime params pindexLast) <> 0 ->
  exists nBitsNext,
    GetNextWorkRequired (Some pindexLast) pblock params = Ok nBitsNext.
Proof.
  intros Hwf Hh Hi HT Hnz. unfold GetNextWorkRequired.
  destruct (ActiveRegime params pindexLast) as [interval T]. cbn [fst snd] in *.
  pose proof (well_formed_height _ Hwf) as Hd.
  assert (Hh' : 0 <= nHeight pindexLast < 2 ^ 31 - 1) by lia.
  destruct (Z.eq_dec (Z.rem (nHeight pindexLast + 1) interval) 0) as [Hrem | Hrem].
  - rewrite NextWorkUnder_on_boundary by assumption.
    destruct (NextWorkUnder_window_exists interval T pindexLast pblock params
                Hwf Hh Hi Hrem) as [[pindexFirst ->] _].
    apply CalculateNextWorkRequired_ok; assumption.
  - rewrite NextWorkUnder_off_boundary by assumption.
    destruct (fPowAllowMinDifficultyBlocks params); [| eauto].
    match goal with |- context [if ?c then _ else _] => destruct c end; eauto.
Qed.

Lemma GetNextWorkRequired_returns_witness :
  exists nBitsNext,
    GetNextWorkRequired (Some two_windows) (BlockHeader 1014400) hourlyTestParams
    = Ok nBitsNext.
Proof.
  apply (GetNextWorkRequired_returns two_windows (BlockHeader 1014400) hourlyTestParams).
  - vm_compute. reflexivity.
  - vm_compute. reflexivity.
  - vm_compute. discriminate.
  - split; vm_compute; [discriminate | reflexivity].
  - vm_compute. discriminate.
Defined.

(** Lines 75-77 for a positive interval that divides the next height. *)
Lemma BlocksToGoBack_value (h interval : Z) :
  0 <= h < 2 ^ 31 - 1 -> 0 < interval ->
  Z.rem (h + 1) interval = 0 ->
  BlocksToGoBack h interval = if h + 1 =? interval then interval - 1 else interval.
Proof.
  intros Hh Hi Hrem. unfold BlocksToGoBack.
  rewrite (to_int32_id (h + 1)) by (unfold is_int32; lia).
  apply Z.rem_divide in Hrem; [| lia]. destruct Hrem as [k Hk].
  assert (Hk1 : 1 <= k) by (destruct (Z.le_gt_cases k 0); [nia | lia]).
  assert (Hle : interval <= h + 1) by nia.
  destruct (Z.eqb_spec (h + 1) interval); cbn [negb].
  - rewrite to_int64_id by (unfold is_int64; lia).
    apply to_int32_id. unfold is_int32. lia.
  - apply to_int32_id. unfold is_int32. lia.
Qed.

(** X5: at a retarget boundary of a well-formed chain the timespan is
    measured from genesis for the first window, and otherwise from the
    block a full interval below the last one, which is the last block of
    the previous window. *)
Theorem window_first_block (pindexLast : CBlockIndex)
    (pblock : CBlockHeader) (params : Params) :
  well_formed pindexLast = true ->
  nHeight pindexLast < 2 ^ 31 - 1 ->
  0 < fst (ActiveRegime params pindexLast) ->
  Z.rem (nHeight pindexLast + 1) (fst (ActiveRegime params pindexLast)) = 0 ->
  exists pindexFirst,
    In pindexFirst (ancestors pindexLast)
    /\ nHeight pindexFirst
       = (if nHeight pindexLast + 1 =? fst (ActiveRegime params pindexLast)
          then 0
          else nHeight pindexLast - fst (ActiveRegime params pindexLast))
    /\ GetNextWorkRequired (Some pindexLast) pblock params
       = CalculateNextWorkRequired pindexLast (GetBlockTime pindexFirst) params
           (snd (ActiveRegime params pindexLast)).
Proof.
  intros Hwf Hh Hi Hrem. unfold GetNextWorkRequired.
  destruct (ActiveRegime params pindexLast) as [interval T]. cbn [fst snd] in *.
  pose proof (well_formed_height _ Hwf) as Hd.
  assert (Hh' : 0 <= nHeight pindexLast < 2 ^ 31 - 1) by lia.
  rewrite NextWorkUnder_on_boundary by (assumption || lia).
  destruct (NextWorkUnder_window_exists interval T pindexLast pblock params
              Hwf Hh ltac:(lia) Hrem) as [[pindexFirst Hfirst] _].
  rewrite Hfirst. exists pindexFirst.
  rewrite GoBack_nth in Hfirst.
  destruct (ancestor_height _ Hwf _ _ Hfirst) as [Hheight _].
  split; [eapply nth_error_In; exact Hfirst |]. split; [| reflexivity].
  rewrite Hheight. rewrite BlocksToGoBack_value by assumption.
  destruct (Z.eqb_spec (nHeight pindexLast + 1) interval); lia.
Qed.

Lemma window_first_block_witness :
  exists pindexFirst,
    In pindexFirst (ancestors two_windows)
    /\ nHeight pindexFirst
       = (if nHeight two_windows + 1 =? fst (ActiveRegime hourlyTestParams two_windows)
          then 0
          else nHeight two_windows - fst (ActiveRegime hourlyTestParams two_windows))
    /\ GetNextWorkRequired (Some two_windows) (BlockHeader 1014400) hourlyTestParams
       = CalculateNextWorkRequired two_windows (GetBlockTime pindexFirst)
           hourlyTestParams (snd (ActiveRegime hourlyTestParams two_windows)).
Proof.
  apply (window_first_block two_windows (BlockHeader 1014400) hourlyTestParams).
  - vm_compute. reflexivity.
  - vm_compute. reflexivity.
  - vm_compute. reflexivity.
  - vm_compute. reflexivity.
Defined.

Example second_window_starts_at_height_23 :
  option_map nHeight
    (GoBack two_windows 0
       (BlocksToGoBack (nHeight two_windows)
          (fst (ActiveRegime hourlyTestParams two_windows))))
  = Some 23.
Proof. vm_compute. reflexivity. Qed.

(** X6: at a retarget boundary the call ends in the assertion of line 85
    exactly when the last block has fewer parent links below it than
    [blockstogoback]. *)
Theorem assertion_iff_chain_too_short (pindexLast : CBlockIndex)
    (pblock : CBlockHeader) (params : Params) :
  0 <= nHeight pindexLast < 2 ^ 31 - 1 ->
  fst (ActiveRegime params pindexLast) <> 0 ->
  Z.rem (nHeight pindexLast + 1) (fst (ActiveRegime params pindexLast)) = 0 ->
  (GetNextWorkRequired (Some pindexLast) pblock params = AssertionFailed
   <-> Z.of_nat (depth pindexLast)
       < BlocksToGoBack (nHeight pindexLast) (fst (ActiveRegime params pindexLast))).
Proof.
  intros Hh Hi Hrem. unfold GetNextWorkRequired.
  destruct (ActiveRegime params pindexLast) as [interval T]. cbn [fst] in *.
  rewrite NextWorkUnder_on_boundary by assumption.
  rewrite GoBack_nth, Z.sub_0_r.
  set (n := BlocksToGoBack (nHeight pindexLast) interval).
  destruct (nth_error (ancestors pindexLast) (Z.to_nat n)) as [pindexFirst |] eqn:E.
  - assert (Hlen : (Z.to_nat n < length (ancestors pindexLast))%nat)
      by (apply nth_error_Some; rewrite E; discriminate).
    rewrite ancestors_length in Hlen. split.
    + intro Hassert. exfalso.
      exact (CalculateNextWorkRequired_no_assert _ _ _ _ Hassert).
    + lia.
  - apply nth_error_None in E. rewrite ancestors_length in E.
    split; [lia | reflexivity].
Qed.

Lemma assertion_iff_chain_too_short_witness :
  GetNextWorkRequired (Some orphan_block) (BlockHeader 1000300) hourlyTestParams
  = AssertionFailed
  <-> Z.of_nat (depth orphan_block)
      < BlocksToGoBack (nHeight orphan_block)
          (fst (ActiveRegime hourlyTestParams orphan_block)).
Proof.
  apply (assertion_iff_chain_too_short orphan_block (BlockHeader 1000300)
           hourlyTestParams).
  - split; vm_compute; [discriminate | reflexivity].
  - vm_compute. discriminate.
  - vm_compute. reflexivity.
Defined.

(** ** The minimum-difficulty walk on a well-formed chain *)

Lemma same_window_below (h interval : Z) :
  0 < interval -> 0 <= h -> Z.rem h interval <> 0 ->
  (h - 1) / interval = h / interval.
Proof.
  intros Hi Hh Hrem. rewrite Z.rem_mod_nonneg in Hrem by lia.
  pose proof (Z.div_mod h interval ltac:(lia)) as Hdm.
  pose proof (Z.mod_pos_bound h interval Hi) as Hmb.
  symmetry. apply Z.div_unique with (r := h mod interval - 1); lia.
Qed.

(** The walk of lines 53-63 stops at the latest on the block whose height is
    a multiple of the interval: it never leaves the current window. *)
Lemma MinDifficultyWalk_height (interval limit : Z) (pindex : CBlockIndex) :
  0 < interval -> well_formed pindex = true ->
  interval * (nHeight pindex / interval)
  <= nHeight (MinDifficultyWalk interval limit pindex) <= nHeight pindex.
Proof.
  intro Hi.
  induction pindex as [h t b | parent h t b IH] using chain_ind; intro Hwf.
  - cbn [MinDifficultyWalk pprev nHeight].
    pose proof (Z.mul_div_le h interval Hi). lia.
  - pose proof (well_formed_height _ Hwf) as Hh. cbn [nHeight depth pprev] in Hh.
    cbn [well_formed pprev] in Hwf. apply andb_true_iff in Hwf.
    destruct Hwf as [_ Hwfp]. specialize (IH Hwfp).
    pose proof (well_formed_height _ Hwfp) as Hhp.
    cbn [MinDifficultyWalk pprev nHeight nBits].
    destruct (Z.eqb_spec (Z.rem h interval) 0) as [Hrem | Hrem]; cbn [negb andb].
    + cbn [nHeight]. pose proof (Z.mul_div_le h interval Hi). lia.
    + destruct (Z.eqb_spec b limit).
      * replace (nHeight parent) with (h - 1) in IH by lia.
        rewrite same_window_below in IH by lia. lia.
      * cbn [nHeight]. pose proof (Z.mul_div_le h interval Hi). lia.
Qed.

(** X7: on a well-formed chain the minimum-difficulty walk stays inside the
    current window: the bits returned are those of a block of the chain whose
    height is at least the last multiple of the adjustment interval and at
    most the last block's height. *)
Theorem min_difficulty_walk_within_window (pindexLast : CBlockIndex)
    (pblock : CBlockHeader) (params : Params) :
  fPowAllowMinDifficultyBlocks params = true ->
  well_formed pindexLast = true ->
  nHeight pindexLast < 2 ^ 31 - 1 ->
  0 < fst (ActiveRegime params pindexLast) ->
  Z.rem (nHeight pindexLast + 1) (fst (ActiveRegime params pindexLast)) <> 0 ->
  gap_limit_fits pindexLast params ->
  GetHeaderTime pblock <= GetBlockTime pindexLast + 2 * nPowTargetSpacing params ->
  exists stop,
    In stop (ancestors pindexLast)
    /\ fst (ActiveRegime params pindexLast)
       * (nHeight pindexLast / fst (ActiveRegime params pindexLast))
       <= nHeight stop <= nHeight pindexLast
    /\ GetNextWorkRequired (Some pindexLast) pblock params = Ok (nBits stop).
Proof.
  intros Hallow Hwf Hh Hi Hrem Hfits Hgap. unfold GetNextWorkRequired.
  destruct (ActiveRegime params pindexLast) as [interval T]. cbn [fst] in *.
  pose proof (well_formed_height _ Hwf) as Hd.
  rewrite NextWorkUnder_min_difficulty by (assumption || lia).
  destruct (Z.gtb_spec (GetHeaderTime pblock)
              (GetBlockTime pindexLast + nPowTargetSpacing params * 2)); [lia |].
  set (limit := GetCompact (UintToArith256 (powLimit params))).
  exists (MinDifficultyWalk interval limit pindexLast).
  destruct (MinDifficultyWalk_stops interval limit pindexLast) as (n & Hn & _ & _).
  split; [eapply nth_error_In; exact Hn |].
  split; [apply MinDifficultyWalk_height; assumption | reflexivity].
Qed.

Lemma min_difficulty_walk_within_window_witness :
  exists stop,
    In stop (ancestors testnet_block2)
    /\ fst (ActiveRegime testParams testnet_block2)
       * (nHeight testnet_block2 / fst (ActiveRegime testParams testnet_block2))
       <= nHeight stop <= nHeight testnet_block2
    /\ GetNextWorkRequired (Some testnet_block2) (BlockHeader 1001100) testParams
       = Ok (nBits stop).
Proof.
  apply (min_difficulty_walk_within_window testnet_block2 (BlockHeader 1001100)
           testParams).
  - reflexivity.
  - vm_compute. reflexivity.
  - vm_compute. reflexivity.
  - vm_compute. reflexivity.
  - vm_compute. discriminate.
  - unfold gap_limit_fits, is_int64. cbn. lia.
  - cbn. lia.
Defined.

(** X8: with the minimum-difficulty rule on, off a retarget boundary and
    without a gap, a last block that is not itself a minimum-difficulty
    block (or is genesis, or sits on a multiple of the interval) passes its
    bits on unchanged. *)
Theorem min_difficulty_regular_last_block (pindexLast : CBlockIndex)
    (pblock : CBlockHeader) (params : Params) :
  fPowAllowMinDifficultyBlocks params = true ->
  0 <= nHeight pindexLast < 2 ^ 31 - 1 ->
  fst (ActiveRegime params pindexLast) <> 0 ->
  Z.rem (nHeight pindexLast + 1) (fst (ActiveRegime params pindexLast)) <> 0 ->
  gap_limit_fits pindexLast params ->
  GetHeaderTime pblock <= GetBlockTime pindexLast + 2 * nPowTargetSpacing params ->
  nBits pindexLast <> GetCompact (UintToArith256 (powLimit params))
  \/ pprev pindexLast = None
  \/ Z.rem (nHeight pindexLast) (fst (ActiveRegime params pindexLast)) = 0 ->
  GetNextWorkRequired (Some pindexLast) pblock params = Ok (nBits pindexLast).
Proof.
  intros Hallow Hh Hi Hrem Hfits Hgap Hregular. unfold GetNextWorkRequired.
  destruct (ActiveRegime params pindexLast) as [interval T]. cbn [fst] in *.
  rewrite NextWorkUnder_min_difficulty by assumption.
  destruct (Z.gtb_spec (GetHeaderTime pblock)
              (GetBlockTime pindexLast + nPowTargetSpacing params * 2)); [lia |].
  do 2 f_equal.
  destruct pindexLast as [[parent |] h t b]; cbn [MinDifficultyWalk pprev nHeight nBits] in *;
    [| reflexivity].
  destruct Hregular as [Hbits | [Hgenesis | Hmultiple]].
  - destruct (Z.eqb_spec b (GetCompact (UintToArith256 (powLimit params))));
      [contradiction |]. rewrite andb_false_r. reflexivity.
  - discriminate.
  - rewrite Hmultiple. reflexivity.
Qed.

Lemma min_difficulty_regular_last_block_witness :
  GetNextWorkRequired (Some testnet_block3) (BlockHeader 1001500) testParams
  = Ok (nBits testnet_block3).
Proof.
  apply (min_difficulty_regular_last_block testnet_block3 (BlockHeader 1001500)
           testParams).
  - reflexivity.
  - split; vm_compute; [discriminate | reflexivity].
  - vm_compute. discriminate.
  - vm_compute. discriminate.
  - unfold gap_limit_fits, is_int64. cbn. lia.
  - cbn. lia.
  - left. vm_compute. discriminate.
Defined.

(** ** A degenerate parameter set *)

Lemma quot_zero (a b : Z) : Z.abs a < Z.abs b -> Z.quot a b = 0.
Proof. intro Hlt. apply Z.quot_small_iff; [lia | exact Hlt]. Qed.

(** X9: when the target timespan in force is smaller in absolute value
    than the target spacing, the adjustment interval is zero and the
    boundary test of line 41 divides by zero, for every last block. *)
Theorem zero_interval_divides_by_zero (pindexLast : CBlockIndex)
    (pblock : CBlockHeader) (params : Params) :
  Z.abs (snd (ActiveRegime params pindexLast)) < Z.abs (nPowTargetSpacing params) ->
  GetNextWorkRequired (Some pindexLast) pblock params = DivisionByZero.
Proof.
  intro Hsmall. unfold GetNextWorkRequired.
  assert (Hzero : fst (ActiveRegime params pindexLast) = 0).
  { unfold ActiveRegime in *.
    destruct (nHeight pindexLast >=? HardFork_Height params); cbn [fst snd] in *.
    - unfold DifficultyAdjustmentInterval_Fork.
      rewrite quot_zero by exact Hsmall. reflexivity.
    - unfold DifficultyAdjustmentInterval.
      rewrite quot_zero by exact Hsmall. reflexivity. }
  destruct (ActiveRegime params pindexLast) as [interval T]. cbn [fst] in Hzero.
  subst interval. reflexivity.
Qed.

Lemma zero_interval_divides_by_zero_witness :
  GetNextWorkRequired (Some fork_chain) (BlockHeader 1007200) shortTimespanParams
  = DivisionByZero.
Proof.
  apply (zero_interval_divides_by_zero fork_chain (BlockHeader 1007200)
           shortTimespanParams).
  vm_compute. reflexivity.
Defined.

(** ** More on CheckProofOfWork *)

(** Acceptance in terms of the decoded target. *)
Lemma CheckProofOfWork_true_iff (hash : uint256) (nBits : Z) (params : Params) :
  CheckProofOfWork hash nBits params = true
  <-> negative (SetCompact nBits) = false
      /\ overflow (SetCompact nBits) = false
      /\ magnitude (SetCompact nBits) <> 0
      /\ magnitude (SetCompact nBits) <= UintToArith256 (powLimit params)
      /\ UintToArith256 hash <= magnitude (SetCompact nBits).
Proof.
  unfold CheckProofOfWork, negative, overflow, magnitude, UintToArith256.
  destruct (SetCompact nBits) as [[t neg] ovf]; cbn [fst snd].
  destruct neg, ovf; cbn [orb]; rewrite ?orb_true_r; cbn [orb];
    try (split; [discriminate | intros (? & ? & _); discriminate]).
  destruct (Z.eqb_spec t 0); cbn [orb];
    [split; [discriminate | intros (_ & _ & Hn & _); contradiction] |].
  destruct (Z.gtb_spec t (powLimit params)); cbn;
    [split; [discriminate | intros (_ & _ & _ & Hle & _); lia] |].
  destruct (Z.gtb_spec hash t);
    [split; [discriminate | intros (_ & _ & _ & _ & Hle); lia] |].
  split; [intros _; repeat split; auto; lia | reflexivity].
Qed.

(** X10: acceptance is monotone: a proof accepted for some hash and limit is
    accepted for every smaller hash and every higher difficulty limit. *)
Theorem CheckProofOfWork_monotone (hash hash' : uint256) (nBits : Z)
    (params params' : Params) :
  CheckProofOfWork hash nBits params = true ->
  hash' <= hash ->
  powLimit params <= powLimit params' ->
  CheckProofOfWork hash' nBits params' = true.
Proof.
  intros Hacc Hhash Hlimit.
  apply CheckProofOfWork_true_iff in Hacc.
  destruct Hacc as (Hneg & Hovf & Hnz & Hle & Hh).
  apply CheckProofOfWork_true_iff. unfold UintToArith256 in *.
  repeat split; try assumption; lia.
Qed.

Lemma CheckProofOfWork_monotone_witness :
  CheckProofOfWork 12345 0x1d00ffff testParams = true.
Proof.
  apply (CheckProofOfWork_monotone (0xffff * 2 ^ 208) 12345 0x1d00ffff
           mainParams testParams).
  - vm_compute. reflexivity.
  - vm_compute. discriminate.
  - vm_compute. discriminate.
Defined.

(** X11: an accepted hash is never above the difficulty limit, and the
    target it was checked against is a nonzero 256-bit number. *)
Theorem CheckProofOfWork_accepts_within_limit (hash : uint256) (nBits : Z)
    (params : Params) :
  CheckProofOfWork hash nBits params = true ->
  UintToArith256 hash <= UintToArith256 (powLimit params)
  /\ 0 < magnitude (SetCompact nBits) < 2 ^ 256.
Proof.
  intro Hacc. apply CheckProofOfWork_true_iff in Hacc.
  destruct Hacc as (_ & _ & Hnz & Hle & Hh).
  pose proof (magnitude_in_range nBits) as Hr. unfold in_range, modulus in Hr.
  split; lia.
Qed.

Lemma CheckProofOfWork_accepts_within_limit_witness :
  UintToArith256 (0xffff * 2 ^ 208) <= UintToArith256 (powLimit mainParams)
  /\ 0 < magnitude (SetCompact 0x1d00ffff) < 2 ^ 256.
Proof.
  apply (CheckProofOfWork_accepts_within_limit (0xffff * 2 ^ 208) 0x1d00ffff
           mainParams).
  vm_compute. reflexivity.
Defined.

(** X12: a compact target with the sign bit set, with a size byte above 34,
    or with a zero mantissa is rejected for every hash and every limit. *)
Theorem CheckProofOfWork_rejects_malformed (hash : uint256) (nBits : Z)
    (params : Params) :
  Z.land nBits 0x00800000 <> 0
  \/ 34 < Z.shiftr nBits 24
  \/ Z.land nBits 0x007fffff = 0 ->
  CheckProofOfWork hash nBits params = false.
Proof.
  intro Hbad. unfold CheckProofOfWork, SetCompact.
  set (s := Z.shiftr nBits 24) in *. set (w := Z.land nBits 0x007fffff) in *.
  assert (Hshl0 : shl 0 (8 * (s - 3)) = 0).
  { unfold shl. rewrite Z.shiftl_0_l. reflexivity. }
  destruct Hbad as [Hsign | [Hsize | Hzero]].
  - destruct (Z.eqb_spec (Z.land nBits 0x00800000) 0); [contradiction |].
    cbn [negb]. rewrite andb_true_r.
    destruct (Z.leb_spec s 3).
    + destruct (Z.eqb_spec (Z.shiftr w (8 * (3 - s))) 0); cbn [negb orb];
        reflexivity.
    + destruct (Z.eqb_spec w 0) as [Hw | Hw]; cbn [negb orb]; [| reflexivity].
      rewrite Hw, Hshl0. reflexivity.
  - destruct (Z.leb_spec s 3); [lia |].
    destruct (Z.gtb_spec s 34); [| lia]. cbn [orb]. rewrite andb_true_r.
    destruct (Z.eqb_spec w 0) as [Hw | Hw]; cbn [negb].
    + rewrite Hw, Hshl0. cbn [andb orb Z.eqb]. reflexivity.
    + rewrite !orb_true_r. reflexivity.
  - rewrite Hzero, Z.shiftr_0_l, Hshl0.
    destruct (s <=? 3); cbn [Z.eqb negb andb orb]; reflexivity.
Qed.

Lemma CheckProofOfWork_rejects_malformed_witness :
  CheckProofOfWork 0 0x1d80ffff mainParams = false.
Proof.
  apply (CheckProofOfWork_rejects_malformed 0 0x1d80ffff mainParams).
  left. vm_compute. discriminate.
Defined.

(** ** The lossy step of the encoder *)

(** Decoding an encoded magnitude gives its truncation. *)
Lemma SetCompact_GetCompact_truncated (a : arith_uint256) :
  0 < a < 2 ^ 256 ->
  SetCompact (GetCompact a) = (truncated a, false, false).
Proof.
  intro Ha. rewrite GetCompact_value by exact Ha. unfold truncated. cbv zeta.
  destruct (byte_length_spec a Ha) as [Hn [Hlow Hhigh]].
  pose proof (top_bytes_range a Ha) as Hc.
  set (n := (bits a + 7) / 8) in *. clearbody n.
  destruct (Z.ltb_spec (top_bytes a n) (2 ^ 23)) as [Hlt23 | Hge23].
  - rewrite SetCompact_packed by lia.
    apply (f_equal (fun v : Z => (v, false, false))).
    destruct (Z.leb_spec n 3) as [Hs | Hs].
    + unfold top_bytes. destruct (Z.leb_spec n 3); [| lia].
      apply Z.div_mul. pose proof (pow2_pos (8 * (3 - n)) ltac:(lia)). lia.
    + apply wrap_small.
      pose proof (pow2_pos (8 * (n - 3)) ltac:(lia)) as HP.
      unfold top_bytes. destruct (Z.leb_spec n 3); [lia |].
      pose proof (Z.mul_div_le a (2 ^ (8 * (n - 3))) HP).
      pose proof (Z.div_pos a (2 ^ (8 * (n - 3))) ltac:(lia) HP). nia.
  - assert (Hw : 2 ^ 15 <= top_bytes a n / 2 ^ 8 < 2 ^ 16).
    { split; [apply Z.div_le_lower_bound; lia | apply Z.div_lt_upper_bound; lia]. }
    rewrite SetCompact_packed by lia.
    apply (f_equal (fun v : Z => (v, false, false))).
    destruct (Z.leb_spec (n + 1) 3) as [Hs | Hs].
    + destruct (Z.leb_spec n 2); [| lia].
      unfold top_bytes. destruct (Z.leb_spec n 3); [| lia].
      assert (Hcases : n = 1 \/ n = 2) by lia.
      destruct Hcases as [-> | ->].
      * change (8 * (3 - 1)) with (8 + 8). change (8 * (3 - (1 + 1))) with 8.
        rewrite pow2_split, Z.mul_assoc by lia.
        rewrite !Z.div_mul by lia. reflexivity.
      * change (8 * (3 - 2)) with 8. change (8 * (3 - (2 + 1))) with 0.
        rewrite Z.div_mul by lia. apply Z.div_1_r.
    + destruct (Z.leb_spec n 2); [lia |].
      replace (n + 1 - 3) with (n - 2) by lia.
      apply wrap_small.
      rewrite top_bytes_high in * by lia.
      pose proof (pow2_pos (8 * (n - 3)) ltac:(lia)) as HP.
      rewrite Z.div_div by lia.
      replace (2 ^ (8 * (n - 3)) * 2 ^ 8) with (2 ^ (8 * (n - 2)))
        by (rewrite <- pow2_split by lia; f_equal; lia).
      pose proof (pow2_pos (8 * (n - 2)) ltac:(lia)) as HQ.
      pose proof (Z.mul_div_le a (2 ^ (8 * (n - 2))) HQ).
      pose proof (Z.div_pos a (2 ^ (8 * (n - 2))) ltac:(lia) HQ). nia.
Qed.

Lemma floor_to_multiple (a Q k : Z) :
  0 <= a -> 0 < Q -> 0 <= k -> k <= a / Q ->
  a / Q * Q <= a /\ k * (a - a / Q * Q) <= a / Q * Q /\ k * Q <= a / Q * Q.
Proof.
  intros Ha HQ Hk Hq.
  pose proof (Z.div_mod a Q ltac:(lia)) as Hdm.
  pose proof (Z.mod_pos_bound a Q HQ) as Hmb.
  repeat split; nia.
Qed.

(** The truncation keeps the byte length, rounds down, and loses less than
    one part in 2^15. *)
Lemma truncated_bounds (a : arith_uint256) :
  0 < a < 2 ^ 256 ->
  2 ^ (8 * ((bits a + 7) / 8 - 1)) <= truncated a <= a
  /\ 2 ^ 15 * (a - truncated a) <= truncated a.
Proof.
  intro Ha. unfold truncated. cbv zeta.
  destruct (byte_length_spec a Ha) as [Hn [Hlow Hhigh]].
  pose proof (top_bytes_range a Ha) as Hc.
  set (n := (bits a + 7) / 8) in *. clearbody n.
  destruct (Z.ltb_spec (top_bytes a n) (2 ^ 23)) as [Hlt23 | Hge23].
  - destruct (Z.leb_spec n 3) as [Hs | Hs]; [lia |].
    unfold top_bytes in *. destruct (Z.leb_spec n 3); [lia |].
    pose proof (pow2_pos (8 * (n - 3)) ltac:(lia)) as HP.
    assert (E : 2 ^ (8 * (n - 1)) = 2 ^ 16 * 2 ^ (8 * (n - 3)))
      by (rewrite <- pow2_split by lia; f_equal; lia).
    destruct (floor_to_multiple a (2 ^ (8 * (n - 3))) (2 ^ 16)
                ltac:(lia) HP ltac:(lia) ltac:(lia)) as (H1 & H2 & H3).
    rewrite E. repeat split; lia.
  - destruct (Z.leb_spec n 2) as [Hs | Hs]; [lia |].
    rewrite top_bytes_high in * by lia.
    pose proof (pow2_pos (8 * (n - 3)) ltac:(lia)) as HP.
    rewrite Z.div_div by lia.
    replace (2 ^ (8 * (n - 3)) * 2 ^ 8) with (2 ^ (8 * (n - 2)))
      by (rewrite <- pow2_split by lia; f_equal; lia).
    pose proof (pow2_pos (8 * (n - 2)) ltac:(lia)) as HQ.
    assert (E : 2 ^ (8 * (n - 1)) = 2 ^ 8 * 2 ^ (8 * (n - 2)))
      by (rewrite <- pow2_split by lia; f_equal; lia).
    assert (Hw : 2 ^ 15 <= a / 2 ^ (8 * (n - 2))).
    { replace (2 ^ (8 * (n - 2))) with (2 ^ (8 * (n - 3)) * 2 ^ 8)
        by (rewrite <- pow2_split by lia; f_equal; lia).
      rewrite <- Z.div_div by lia. apply Z.div_le_lower_bound; lia. }
    destruct (floor_to_multiple a (2 ^ (8 * (n - 2))) (2 ^ 15)
                ltac:(lia) HQ ltac:(lia) Hw) as (H1 & H2 & H3).
    rewrite E. repeat split; lia.
Qed.

Lemma SetCompact_GetCompact_zero : SetCompact (GetCompact 0) = (0, false, false).
Proof. vm_compute. reflexivity. Qed.

(** X13: decoding the compact encoding of any 256-bit magnitude never gives
    more than the magnitude, loses less than one part in 2^15 of it, and
    comes with the negative and overflow flags clear. *)
Theorem compact_encoding_rounds_down (a : arith_uint256) :
  in_range a ->
  magnitude (SetCompact (GetCompact a)) <= a
  /\ 2 ^ 15 * (a - magnitude (SetCompact (GetCompact a)))
     <= magnitude (SetCompact (GetCompact a))
  /\ negative (SetCompact (GetCompact a)) = false
  /\ overflow (SetCompact (GetCompact a)) = false.
Proof.
  unfold in_range, modulus. intro Ha.
  destruct (Z.eq_dec a 0) as [-> | Hnz].
  - rewrite SetCompact_GetCompact_zero. cbn. repeat split; lia.
  - assert (Hpos : 0 < a < 2 ^ 256) by lia.
    rewrite (SetCompact_GetCompact_truncated a Hpos).
    destruct (truncated_bounds a Hpos) as [[_ Hle] Hprec].
    unfold magnitude, negative, overflow. cbn [fst snd]. repeat split; assumption.
Qed.

Lemma compact_encoding_rounds_down_witness :
  magnitude (SetCompact (GetCompact (2 ^ 236 - 1))) <= 2 ^ 236 - 1
  /\ 2 ^ 15 * (2 ^ 236 - 1 - magnitude (SetCompact (GetCompact (2 ^ 236 - 1))))
     <= magnitude (SetCompact (GetCompact (2 ^ 236 - 1)))
  /\ negative (SetCompact (GetCompact (2 ^ 236 - 1))) = false
  /\ overflow (SetCompact (GetCompact (2 ^ 236 - 1))) = false.
Proof.
  apply (compact_encoding_rounds_down (2 ^ 236 - 1)).
  unfold in_range, modulus. lia.
Defined.

Lemma byte_length_unique (a : arith_uint256) (n : Z) :
  0 < a < 2 ^ 256 ->
  2 ^ (8 * (n - 1)) <= a < 2 ^ (8 * n) ->
  (bits a + 7) / 8 = n.
Proof.
  intros Ha [Hlow Hhigh].
  destruct (byte_length_spec a Ha) as [Hn [Hlow' Hhigh']].
  set (n' := (bits a + 7) / 8) in *. clearbody n'.
  assert (Hn1 : 1 <= n).
  { destruct (Z.lt_ge_cases n 1) as [Hsmall | Hok]; [| exact Hok].
    assert (2 ^ (8 * n) <= 1).
    { destruct (Z.eq_dec n 0) as [-> | Hneg]; [cbn; lia |].
      rewrite Z.pow_neg_r by lia. lia. }
    lia. }
  assert (8 * (n - 1) < 8 * n') by (apply pow2_lt_exponent; lia).
  assert (8 * (n' - 1) < 8 * n) by (apply pow2_lt_exponent; lia).
  lia.
Qed.

(** Encoding the truncation gives the compact value again. *)
Lemma GetCompact_truncated (a : arith_uint256) :
  0 < a < 2 ^ 256 -> GetCompact (truncated a) = GetCompact a.
Proof.
  intro Ha.
  destruct (truncated_bounds a Ha) as [[Hlo Hhi] _].
  destruct (byte_length_spec a Ha) as [Hn [Hlow Hhigh]].
  pose proof (top_bytes_range a Ha) as Hc.
  assert (Ht : 0 < truncated a < 2 ^ 256).
  { pose proof (pow2_pos (8 * ((bits a + 7) / 8 - 1)) ltac:(lia)). lia. }
  assert (Hnt : (bits (truncated a) + 7) / 8 = (bits a + 7) / 8)
    by (apply byte_length_unique; [exact Ht | lia]).
  rewrite (GetCompact_value (truncated a) Ht), (GetCompact_value a Ha).
  cbv zeta. rewrite Hnt. clear Hnt Hlo Hhi Ht.
  set (n := (bits a + 7) / 8) in *.
  assert (Hct : top_bytes (truncated a) n
                = if top_bytes a n <? 2 ^ 23 then top_bytes a n
                  else top_bytes a n / 2 ^ 8 * 2 ^ 8).
  { unfold truncated. cbv zeta. fold n. clearbody n.
    destruct (Z.ltb_spec (top_bytes a n) (2 ^ 23)) as [Hlt23 | Hge23].
    - destruct (Z.leb_spec n 3) as [Hs | Hs]; [reflexivity |].
      pose proof (pow2_pos (8 * (n - 3)) ltac:(lia)) as HP.
      rewrite (top_bytes_high _ n) by lia. apply Z.div_mul. lia.
    - destruct (Z.leb_spec n 2) as [Hs | Hs].
      + unfold top_bytes. destruct (Z.leb_spec n 3); [| lia].
        assert (Hcases : n = 1 \/ n = 2) by lia.
        destruct Hcases as [-> | ->].
        * change (8 * (3 - 1)) with (8 + 8).
          rewrite pow2_split, Z.mul_assoc by lia.
          rewrite Z.div_mul by lia. reflexivity.
        * change (8 * (3 - 2)) with 8. rewrite Z.div_mul by lia. reflexivity.
      + pose proof (pow2_pos (8 * (n - 3)) ltac:(lia)) as HP.
        rewrite (top_bytes_high _ n) by lia.
        replace (2 ^ (8 * (n - 2))) with (2 ^ 8 * 2 ^ (8 * (n - 3)))
          by (rewrite <- pow2_split by lia; f_equal; lia).
        rewrite Z.mul_assoc. apply Z.div_mul. lia. }
  rewrite Hct. clearbody n.
  destruct (Z.ltb_spec (top_bytes a n) (2 ^ 23)) as [Hlt23 | Hge23].
  - destruct (Z.ltb_spec (top_bytes a n) (2 ^ 23)); [reflexivity | lia].
  - assert (Hw : 2 ^ 15 <= top_bytes a n / 2 ^ 8)
      by (apply Z.div_le_lower_bound; lia).
    destruct (Z.ltb_spec (top_bytes a n / 2 ^ 8 * 2 ^ 8) (2 ^ 23)); [lia |].
    rewrite Z.div_mul by lia. reflexivity.
Qed.

(** X14: compact encodings are canonical: encoding what an encoding decodes
    to gives the same 32-bit value again. *)
Theorem compact_encoding_canonical (a : arith_uint256) :
  in_range a ->
  GetCompact (magnitude (SetCompact (GetCompact a))) = GetCompact a.
Proof.
  unfold in_range, modulus. intro Ha.
  destruct (Z.eq_dec a 0) as [-> | Hnz].
  - rewrite SetCompact_GetCompact_zero. reflexivity.
  - assert (Hpos : 0 < a < 2 ^ 256) by lia.
    rewrite (SetCompact_GetCompact_truncated a Hpos).
    unfold magnitude. cbn [fst]. apply GetCompact_truncated. exact Hpos.
Qed.

Lemma compact_encoding_canonical_witness :
  GetCompact (magnitude (SetCompact (GetCompact (2 ^ 236 - 1))))
  = GetCompact (2 ^ 236 - 1).
Proof.
  apply (compact_encoding_canonical (2 ^ 236 - 1)).
  unfold in_range, modulus. lia.
Defined.

(** ** The retarget result as a target *)

(** Decoding an encoded 256-bit magnitude: flags clear, nothing gained,
    zero only for zero. *)
Lemma decode_encode_in_range (a : arith_uint256) :
  in_range a ->
  exists a',
    SetCompact (GetCompact a) = (a', false, false)
    /\ 0 <= a' <= a /\ (a' = 0 -> a = 0).
Proof.
  unfold in_range, modulus. intro Ha.
  destruct (Z.eq_dec a 0) as [-> | Hnz].
  - exists 0. rewrite SetCompact_GetCompact_zero. repeat split; lia.
  - assert (Hpos : 0 < a < 2 ^ 256) by lia.
    exists (truncated a). rewrite (SetCompact_GetCompact_truncated a Hpos).
    destruct (truncated_bounds a Hpos) as [[Hlo Hle] _].
    pose proof (byte_length_spec a Hpos) as [Hn _].
    pose proof (pow2_pos (8 * ((bits a + 7) / 8 - 1)) ltac:(lia)).
    repeat split; lia.
Qed.

(** The magnitude line 137 encodes is a 256-bit number within the limit. *)
Lemma NewTarget_in_range (pindexLast : CBlockIndex) (nFirstBlockTime : Z)
    (params : Params) (T : Z) :
  in_range (UintToArith256 (powLimit params)) ->
  is_int64 T -> T <> 0 ->
  exists bnNew,
    NewTarget pindexLast nFirstBlockTime params T = Ok bnNew
    /\ in_range bnNew /\ bnNew <= UintToArith256 (powLimit params).
Proof.
  intros Hl HT Hnz. unfold NewTarget.
  destruct (LimitTimespan_ok (ActualTimespan pindexLast nFirstBlockTime) T) as [a ->].
  cbn [bind]. pose proof (to_uint64_nonzero T HT Hnz) as HD.
  rewrite Retarget_value by lia. cbn [bind].
  eexists. split; [reflexivity |].
  match goal with |- in_range (ClampToLimit ?pre _) /\ _ => set (p := pre) end.
  assert (Hp : in_range p).
  { subst p. destruct (ShiftNeeded _ _); [apply wrap_range |].
    match goal with |- in_range (wrap ?x / _) => pose proof (wrap_range x) as Hw end.
    unfold in_range, modulus in *. split.
    - apply Z.div_pos; lia.
    - apply Z.le_lt_trans with (wrap (Halved (nBits pindexLast)
                                       (UintToArith256 (powLimit params))
                                     * to_uint32 a)); [| lia].
      apply Z.div_le_upper_bound; [lia | nia]. }
  split; [| apply ClampToLimit_le].
  unfold ClampToLimit. destruct (p >? UintToArith256 (powLimit params)); assumption.
Qed.

(** X15: with retargeting on and a nonzero target timespan, the compact
    target CalculateNextWorkRequired returns decodes with the negative and
    overflow flags clear to a magnitude within the difficulty limit, so
    CheckProofOfWork accepts a hash against it exactly when that magnitude
    is nonzero and the hash does not exceed it. *)
Theorem retarget_output_is_valid_target (pindexLast : CBlockIndex)
    (nFirstBlockTime : Z) (params : Params) (nTargetTimespan : Z) :
  fPowNoRetargeting params = false ->
  in_range (UintToArith256 (powLimit params)) ->
  is_int64 nTargetTimespan -> nTargetTimespan <> 0 ->
  exists nBitsNew,
    CalculateNextWorkRequired pindexLast nFirstBlockTime params nTargetTimespan
    = Ok nBitsNew
    /\ negative (SetCompact nBitsNew) = false
    /\ overflow (SetCompact nBitsNew) = false
    /\ magnitude (SetCompact nBitsNew) <= UintToArith256 (powLimit params)
    /\ forall hash,
         CheckProofOfWork hash nBitsNew params = true
         <-> magnitude (SetCompact nBitsNew) <> 0
             /\ UintToArith256 hash <= magnitude (SetCompact nBitsNew).
Proof.
  intros Hretarget Hl HT Hnz. unfold CalculateNextWorkRequired. rewrite Hretarget.
  destruct (NewTarget_in_range pindexLast nFirstBlockTime params nTargetTimespan
              Hl HT Hnz) as (bnNew & -> & Hr & Hle).
  cbn [bind]. exists (GetCompact bnNew). split; [reflexivity |].
  destruct (decode_encode_in_range bnNew Hr) as (a' & Hdec & Ha' & _).
  assert (Hflags : negative (SetCompact (GetCompact bnNew)) = false
                   /\ overflow (SetCompact (GetCompact bnNew)) = false
                   /\ magnitude (SetCompact (GetCompact bnNew))
                      <= UintToArith256 (powLimit params)).
  { rewrite Hdec. unfold negative, overflow, magnitude. cbn [fst snd].
    repeat split; lia. }
  destruct Hflags as (Hneg & Hovf & Hmag).
  split; [exact Hneg | split; [exact Hovf | split; [exact Hmag |]]].
  intro hash. rewrite CheckProofOfWork_true_iff. tauto.
Qed.

Lemma retarget_output_is_valid_target_witness :
  exists nBitsNew,
    CalculateNextWorkRequired main_block 1499900000 mainParams 302400 = Ok nBitsNew
    /\ negative (SetCompact nBitsNew) = false
    /\ overflow (SetCompact nBitsNew) = false
    /\ magnitude (SetCompact nBitsNew) <= UintToArith256 (powLimit mainParams)
    /\ forall hash,
         CheckProofOfWork hash nBitsNew mainParams = true
         <-> magnitude (SetCompact nBitsNew) <> 0
             /\ UintToArith256 hash <= magnitude (SetCompact nBitsNew).
Proof.
  apply (retarget_output_is_valid_target main_block 1499900000 mainParams 302400).
  - reflexivity.
  - unfold in_range, modulus. cbn. lia.
  - unfold is_int64. lia.
  - lia.
Defined.

(** X16: for a nonzero 256-bit difficulty limit, the compact limit that the
    minimum-difficulty rule hands out is a valid target: CheckProofOfWork
    accepts against it every hash up to the magnitude it decodes to, the
    zero hash among them. *)
Theorem limit_target_is_valid (hash : uint256) (params : Params) :
  0 < UintToArith256 (powLimit params) < 2 ^ 256 ->
  (CheckProofOfWork hash (GetCompact (UintToArith256 (powLimit params))) params = true
   <-> UintToArith256 hash
       <= magnitude (SetCompact (GetCompact (UintToArith256 (powLimit params)))))
  /\ CheckProofOfWork 0 (GetCompact (UintToArith256 (powLimit params))) params = true.
Proof.
  intro Hl.
  destruct (decode_encode_in_range (UintToArith256 (powLimit params)))
    as (a' & Hdec & Ha' & Hzero); [unfold in_range, modulus; lia |].
  assert (Hiff : forall h,
             CheckProofOfWork h (GetCompact (UintToArith256 (powLimit params))) params
             = true <-> UintToArith256 h <= a').
  { intro h. rewrite CheckProofOfWork_true_iff. rewrite Hdec.
    unfold negative, overflow, magnitude. cbn [fst snd].
    split; [intros (_ & _ & _ & _ & H); exact H |].
    intro H. split; [reflexivity | split; [reflexivity |]].
    split; [intro Ha0; specialize (Hzero Ha0); lia |].
    split; [lia | exact H]. }
  rewrite Hdec. unfold magnitude. cbn [fst]. split; [apply Hiff |].
  apply Hiff. unfold UintToArith256. lia.
Qed.

Lemma limit_target_is_valid_witness :
  (CheckProofOfWork 12345 (GetCompact (UintToArith256 (powLimit testParams))) testParams
   = true
   <-> UintToArith256 12345
       <= magnitude (SetCompact (GetCompact (UintToArith256 (powLimit testParams)))))
  /\ CheckProofOfWork 0 (GetCompact (UintToArith256 (powLimit testParams))) testParams
     = true.
Proof.
  apply (limit_target_is_valid 12345 testParams).
  unfold UintToArith256. cbn. lia.
Defined.

(** ** Particular windows *)

(** The limited timespan when the fourfold target timespan fits 64 bits. *)
Lemma LimitTimespan_value64 (a T : Z) :
  0 < T -> is_int64 (T * 4) ->
  LimitTimespan a T = Ok (Z.min (Z.max a (T / 4)) (T * 4)).
Proof.
  intros Hpos Hfit. unfold LimitTimespan, int64_div. cbn [Z.eqb bind].
  rewrite Z.quot_div_nonneg by lia.
  assert (0 <= T / 4 <= T)
    by (split; [apply Z.div_pos; lia | apply Z.div_le_upper_bound; lia]).
  unfold is_int64 in Hfit.
  rewrite (to_int64_id (T / 4)) by (unfold is_int64; lia).
  rewrite (to_int64_id (T * 4)) by (unfold is_int64; lia).
  f_equal.
  destruct (Z.ltb_spec a (T / 4)); destruct (Z.gtb_spec (Z.max a (T / 4)) (T * 4));
    repeat match goal with
           | |- context [if ?c then _ else _] => destruct c eqn:?
           end; lia.
Qed.

(** X17: a window that took exactly the target timespan leaves the target
    where it was: the result is the compact encoding of the previous
    magnitude, provided that magnitude is within the difficulty limit, the
    product fits 256 bits, and the magnitude is even whenever it is halved
    around the multiplication. *)
Theorem on_schedule_window_keeps_target (pindexLast : CBlockIndex)
    (nFirstBlockTime : Z) (params : Params) (nTargetTimespan : Z) :
  fPowNoRetargeting params = false ->
  2 <= nTargetTimespan -> nTargetTimespan * 4 < 2 ^ 32 ->
  ActualTimespan pindexLast nFirstBlockTime = nTargetTimespan ->
  product_fits (nBits pindexLast) (UintToArith256 (powLimit params)) nTargetTimespan ->
  magnitude (SetCompact (nBits pindexLast)) <= UintToArith256 (powLimit params) ->
  (ShiftNeeded (magnitude (SetCompact (nBits pindexLast)))
     (UintToArith256 (powLimit params)) = true ->
   magnitude (SetCompact (nBits pindexLast)) mod 2 = 0) ->
  CalculateNextWorkRequired pindexLast nFirstBlockTime params nTargetTimespan
  = Ok (GetCompact (magnitude (SetCompact (nBits pindexLast)))).
Proof.
  intros Hretarget HT Hfit Hact Hprod Hle Heven.
  unfold CalculateNextWorkRequired. rewrite Hretarget.
  rewrite NewTarget_fitting by assumption. cbn [bind]. cbv zeta.
  rewrite Hact.
  assert (0 <= nTargetTimespan / 4 <= nTargetTimespan)
    by (split; [apply Z.div_pos; lia | apply Z.div_le_upper_bound; lia]).
  replace (Z.min (Z.max nTargetTimespan (nTargetTimespan / 4)) (nTargetTimespan * 4))
    with nTargetTimespan by lia.
  rewrite Z.div_mul by lia.
  apply (f_equal (fun v => Ok (GetCompact v))).
  unfold Halved, shr.
  destruct (ShiftNeeded (magnitude (SetCompact (nBits pindexLast)))
              (UintToArith256 (powLimit params))).
  - rewrite Z.shiftr_div_pow2 by lia. change (2 ^ 1) with 2.
    specialize (Heven eq_refl).
    pose proof (Z.div_mod (magnitude (SetCompact (nBits pindexLast))) 2 ltac:(lia)).
    replace (2 * (magnitude (SetCompact (nBits pindexLast)) / 2))
      with (magnitude (SetCompact (nBits pindexLast))) by lia.
    unfold ClampToLimit.
    destruct (Z.gtb_spec (magnitude (SetCompact (nBits pindexLast)))
                (UintToArith256 (powLimit params))); [lia | reflexivity].
  - unfold ClampToLimit.
    destruct (Z.gtb_spec (magnitude (SetCompact (nBits pindexLast)))
                (UintToArith256 (powLimit params))); [lia | reflexivity].
Qed.

Lemma on_schedule_window_keeps_target_witness :
  CalculateNextWorkRequired main_block 1499697600 mainParams 302400
  = Ok (GetCompact (magnitude (SetCompact (nBits main_block)))).
Proof.
  apply (on_schedule_window_keeps_target main_block 1499697600 mainParams 302400).
  - reflexivity.
  - lia.
  - lia.
  - vm_compute. reflexivity.
  - unfold product_fits. vm_compute. reflexivity.
  - vm_compute. discriminate.
  - intros _. vm_compute. reflexivity.
Defined.

Example on_schedule_window_same_bits :
  CalculateNextWorkRequired main_block 1499697600 mainParams 302400
  = Ok (nBits main_block).
Proof. vm_compute. reflexivity. Qed.

(** X18: beyond the limits of lines 105-108 the first block's timestamp no
    longer matters: all windows shorter than a quarter of the target
    timespan get the same result, and so do all windows longer than four
    times the target timespan. *)
Theorem timespan_saturates (pindexLast : CBlockIndex) (first first' : Z)
    (params : Params) (nTargetTimespan : Z) :
  0 < nTargetTimespan -> is_int64 (nTargetTimespan * 4) ->
  (ActualTimespan pindexLast first <= nTargetTimespan / 4
   /\ ActualTimespan pindexLast first' <= nTargetTimespan / 4)
  \/ (nTargetTimespan * 4 <= ActualTimespan pindexLast first
      /\ nTargetTimespan * 4 <= ActualTimespan pindexLast first') ->
  CalculateNextWorkRequired pindexLast first params nTargetTimespan
  = CalculateNextWorkRequired pindexLast first' params nTargetTimespan.
Proof.
  intros HT Hfit Hsat. unfold CalculateNextWorkRequired, NewTarget.
  rewrite !LimitTimespan_value64 by assumption.
  assert (0 <= nTargetTimespan / 4 <= nTargetTimespan)
    by (split; [apply Z.div_pos; lia | apply Z.div_le_upper_bound; lia]).
  replace (Z.min (Z.max (ActualTimespan pindexLast first') (nTargetTimespan / 4))
             (nTargetTimespan * 4))
    with (Z.min (Z.max (ActualTimespan pindexLast first) (nTargetTimespan / 4))
            (nTargetTimespan * 4)) by lia.
  reflexivity.
Qed.

Lemma timespan_saturates_witness :
  CalculateNextWorkRequired main_block 1499999000 mainParams 302400
  = CalculateNextWorkRequired main_block 1500000000 mainParams 302400.
Proof.
  apply (timespan_saturates main_block 1499999000 1500000000 mainParams 302400).
  - lia.
  - unfold is_int64. lia.
  - left. split; vm_compute; discriminate.
Defined.

(** X19: slow windows never make the target harder and fast windows never
    make it easier: when nothing wraps, a window that took at most the
    target timespan gives a magnitude (before the limit clamp) of at most
    the previous one, and a window that took at least the target timespan
    gives at least the previous one, less the one unit the halving may drop. *)
Theorem retarget_direction (pindexLast : CBlockIndex) (nFirstBlockTime : Z)
    (params : Params) (nTargetTimespan : Z) :
  2 <= nTargetTimespan -> nTargetTimespan * 4 < 2 ^ 32 ->
  product_fits (nBits pindexLast) (UintToArith256 (powLimit params)) nTargetTimespan ->
  exists pre,
    NewTarget pindexLast nFirstBlockTime params nTargetTimespan
    = Ok (ClampToLimit pre (UintToArith256 (powLimit params)))
    /\ (ActualTimespan pindexLast nFirstBlockTime <= nTargetTimespan ->
        pre <= magnitude (SetCompact (nBits pindexLast)))
    /\ (nTargetTimespan <= ActualTimespan pindexLast nFirstBlockTime ->
        magnitude (SetCompact (nBits pindexLast)) <= pre + 1).
Proof.
  intros HT Hfit Hprod. rewrite NewTarget_fitting by assumption. cbv zeta.
  eexists. split; [reflexivity |].
  assert (Hq : 0 <= nTargetTimespan / 4 <= nTargetTimespan)
    by (split; [apply Z.div_pos; lia | apply Z.div_le_upper_bound; lia]).
  pose proof (Halved_range (nBits pindexLast) (UintToArith256 (powLimit params)))
    as [[Hh Hhm] Hh2].
  pose proof (Halved_lower (nBits pindexLast) (UintToArith256 (powLimit params)))
    as Hlow.
  set (h := Halved (nBits pindexLast) (UintToArith256 (powLimit params))) in *.
  set (a := Z.min (Z.max (ActualTimespan pindexLast nFirstBlockTime)
                     (nTargetTimespan / 4)) (nTargetTimespan * 4)).
  split; intro Hact.
  - assert (Ha : 0 <= a <= nTargetTimespan) by (subst a; lia).
    assert (h * a / nTargetTimespan <= h)
      by (apply Z.div_le_upper_bound; [lia | nia]).
    destruct (ShiftNeeded (magnitude (SetCompact (nBits pindexLast)))
                (UintToArith256 (powLimit params))); lia.
  - assert (Ha : nTargetTimespan <= a) by (subst a; lia).
    assert (h <= h * a / nTargetTimespan)
      by (apply Z.div_le_lower_bound; [lia | nia]).
    destruct (ShiftNeeded (magnitude (SetCompact (nBits pindexLast)))
                (UintToArith256 (powLimit params))); lia.
Qed.

Lemma retarget_direction_witness :
  exists pre,
    NewTarget main_block 1499600000 mainParams 302400
    = Ok (ClampToLimit pre (UintToArith256 (powLimit mainParams)))
    /\ (ActualTimespan main_block 1499600000 <= 302400 ->
        pre <= magnitude (SetCompact (nBits main_block)))
    /\ (302400 <= ActualTimespan main_block 1499600000 ->
        magnitude (SetCompact (nBits main_block)) <= pre + 1).
Proof.
  apply (retarget_direction main_block 1499600000 mainParams 302400).
  - lia.
  - lia.
  - unfold product_fits. vm_compute. reflexivity.
Defined.

(** X20: on a well-formed chain, with retargeting on and a nonzero target
    timespan, the compact target returned at a retarget boundary decodes
    with the negative and overflow flags clear to a magnitude within the
    difficulty limit. *)
Theorem boundary_target_within_limit (pindexLast : CBlockIndex)
    (pblock : CBlockHeader) (params : Params) :
  fPowNoRetargeting params = false ->
  in_range (UintToArith256 (powLimit params)) ->
  well_formed pindexLast = true ->
  nHeight pindexLast < 2 ^ 31 - 1 ->
  fst (ActiveRegime params pindexLast) <> 0 ->
  Z.rem (nHeight pindexLast + 1) (fst (ActiveRegime params pindexLast)) = 0 ->
  is_int64 (snd (ActiveRegime params pindexLast)) ->
  snd (ActiveRegime params pindexLast) <> 0 ->
  exists nBitsNext,
    GetNextWorkRequired (Some pindexLast) pblock params = Ok nBitsNext
    /\ negative (SetCompact nBitsNext) = false
    /\ overflow (SetCompact nBitsNext) = false
    /\ magnitude (SetCompact nBitsNext) <= UintToArith256 (powLimit params).
Proof.
  intros Hretarget Hl Hwf Hh Hi Hrem HT Hnz. unfold GetNextWorkRequired.
  destruct (ActiveRegime params pindexLast) as [interval T]. cbn [fst snd] in *.
  pose proof (well_formed_height _ Hwf) as Hd.
  rewrite NextWorkUnder_on_boundary by (assumption || lia).
  destruct (NextWorkUnder_window_exists interval T pindexLast pblock params
              Hwf Hh Hi Hrem) as [[pindexFirst ->] _].
  unfold CalculateNextWorkRequired. rewrite Hretarget.
  destruct (NewTarget_in_range pindexLast (GetBlockTime pindexFirst) params T
              Hl HT Hnz) as (bnNew & -> & Hr & Hle).
  cbn [bind]. exists (GetCompact bnNew). split; [reflexivity |].
  destruct (decode_encode_in_range bnNew Hr) as (a' & -> & Ha' & _).
  unfold negative, overflow, magnitude. cbn [fst snd].
  repeat split; lia.
Qed.

Lemma boundary_target_within_limit_witness :
  exists nBitsNext,
    GetNextWorkRequired (Some two_windows) (BlockHeader 1014400) hourlyTestParams
    = Ok nBitsNext
    /\ negative (SetCompact nBitsNext) = false
    /\ overflow (SetCompact nBitsNext) = false
    /\ magnitude (SetCompact nBitsNext) <= UintToArith256 (powLimit hourlyTestParams).
Proof.
  apply (boundary_target_within_limit two_windows (BlockHeader 1014400)
           hourlyTestParams).
  - reflexivity.
  - unfold in_range, modulus. cbn. lia.
  - vm_compute. reflexivity.
  - vm_compute. reflexivity.
  - vm_compute. discriminate.
  - vm_compute. reflexivity.
  - split; vm_compute; [discriminate | reflexivity].
  - vm_compute. discriminate.
Defined.

(** ** The regime in force *)







(** Running on one regime excludes the other: at the fork height the
    24-block chain is retargeted, which running on the pre-fork interval
    would not allow, and one block before the fork it keeps its bits, which
    running on the post-fork interval would not allow. *)
Example fork_regime_exclusive :
  ~ RunsUnder (DifficultyAdjustmentInterval (forkAt 23))
      (nPowTargetTimespan (forkAt 23)) fork_chain (BlockHeader 1007200) (forkAt 23)
  /\ ~ RunsUnder (DifficultyAdjustmentInterval_Fork (forkAt 24))
        (nPowTargetTimespan_Fork (forkAt 24)) fork_chain (BlockHeader 1007200)
        (forkAt 24).
Proof.
  split; intros (_ & Hoff & Hon).
  - assert (Hi : DifficultyAdjustmentInterval (forkAt 23) <> 0)
      by (vm_compute; discriminate).
    assert (Hrem : Z.rem (nHeight fork_chain + 1)
                     (DifficultyAdjustmentInterval (forkAt 23)) <> 0)
      by (vm_compute; discriminate).
    destruct (Hoff Hi Hrem) as (Hkeep & _).
    specialize (Hkeep eq_refl). vm_compute in Hkeep. discriminate.
  - assert (Hi : DifficultyAdjustmentInterval_Fork (forkAt 24) <> 0)
      by (vm_compute; discriminate).
    assert (Hrem : Z.rem (nHeight fork_chain + 1)
                     (DifficultyAdjustmentInterval_Fork (forkAt 24)) = 0)
      by (vm_compute; reflexivity).
    specialize (Hon Hi Hrem). vm_compute in Hon. discriminate.
Qed.

(** The target timespan in force reaches the calculation: on the boundary
    the two regimes' timespans give different targets for the same window. *)
Example fork_timespan_matters :
  CalculateNextWorkRequired fork_chain 1000000 (forkAt 23) 3600 = Ok 0x1d01eaa8
  /\ CalculateNextWorkRequired fork_chain 1000000 (forkAt 23) 302400 = Ok 0x1c3fffc0.
Proof. vm_compute. repeat split. Qed.
